(** * The relay subsystem of DM: purger by filename, relay recovery,
      event pump and relay holder.

    The purger's filename strategy ([filenameArgs.SetActiveRelayLog],
    [filenameStrategy.Do]) is embedded from its Go source.  The relay
    ([tryRecoverLatestFile], [handleEvents]) and the relay holder are
    exercised by the test suites of the repository; their bodies are
    modelled from the specification and replayed against those tests. *)

From Stdlib Require Import ZArith List String Ascii Bool Arith Lia.
From Stdlib Require Strings.Byte.
Import ListNotations.

Local Open Scope string_scope.
Local Open Scope list_scope.
Local Open Scope Z_scope.

(* ================================================================== *)
(** * Shared helpers *)
(* ================================================================== *)

(** Longest prefix of a list whose elements all satisfy [p]. *)
Fixpoint takeWhile {A : Type} (p : A -> bool) (l : list A) : list A :=
  match l with
  | [] => []
  | x :: l' => if p x then x :: takeWhile p l' else []
  end.

(** [len s] is Go's [len(s)] for a string. *)
Definition len (s : string) : Z := Z.of_nat (String.length s).

(** Go's [strings.Compare(a, b) < 0]: bytewise lexicographic order. *)
Definition strLess (a b : string) : bool := String.ltb a b.

(* ================================================================== *)
(** * pkg/streamer: the relay log hint *)
(* ================================================================== *)

Module Streamer.

(** [streamer.RelayLogInfo], as built in [SetActiveRelayLog]. *)
Record RelayLogInfo : Type := mkRelayLogInfo {
  TaskName   : string;
  UUID       : string;
  UUIDSuffix : Z;
  Filename   : string
}.

(** Modelled from the spec: [RelayLogInfo.Earlier] is declared in
    pkg/streamer, whose source is not available.  The order is "first by
    UUID suffix, then by filename lex". *)
Definition Earlier (info other : RelayLogInfo) : bool :=
  if UUIDSuffix info <? UUIDSuffix other then true
  else if UUIDSuffix other <? UUIDSuffix info then false
  else strLess (Filename info) (Filename other).

End Streamer.
Export Streamer.

(* ================================================================== *)
(** * pkg/utils: sub-directory names *)
(* ================================================================== *)

Module Utils.

Definition isDigit (c : ascii) : bool :=
  let n := nat_of_ascii c in (48 <=? n)%nat && (n <=? 57)%nat.

Definition digitVal (c : ascii) : Z := Z.of_nat (nat_of_ascii c) - 48.

(** Decimal value of a run of digits, most significant first. *)
Fixpoint atoiFrom (acc : Z) (s : string) : option Z :=
  match s with
  | EmptyString => Some acc
  | String c s' =>
      if isDigit c then atoiFrom (acc * 10 + digitVal c) s' else None
  end.

(** Splits at the first ["."]: the text before it and the text after. *)
Fixpoint splitDot (s : string) : option (string * string) :=
  match s with
  | EmptyString => None
  | String c s' =>
      if Ascii.eqb c "."%char then Some (EmptyString, s')
      else match splitDot s' with
           | Some (a, b) => Some (String c a, b)
           | None => None
           end
  end.

Fixpoint hasDot (s : string) : bool :=
  match s with
  | EmptyString => false
  | String c s' => Ascii.eqb c "."%char || hasDot s'
  end.

(** Modelled from the spec: [utils.ParseSuffixForUUID] is declared in
    pkg/utils, whose source is not available.  A sub-directory name is
    [<uuid>.<suffix>] with a decimal suffix of width 6, zero-padded.  The
    value is the suffix; a name of another shape is a parse error, for
    which the callers below drop the error and keep Go's zero value. *)
Definition parseSuffix (uuid : string) : Z :=
  match splitDot uuid with
  | Some (_, sfx) =>
      if (String.length sfx =? 6)%nat && negb (hasDot sfx)
      then match atoiFrom 0 sfx with Some n => n | None => 0 end
      else 0
  | None => 0
  end.

End Utils.

(* ================================================================== *)
(** * relay/purger: the filename strategy *)
(* ================================================================== *)

Module Purger.

(** [filenameArgs].  [safeRelayLog] is a pointer, nil until
    [SetActiveRelayLog] runs. *)
Record filenameArgs : Type := mkFilenameArgs {
  relayBaseDir : string;
  filename     : string;
  subDir       : string;
  uuids        : list string;
  safeRelayLog : option RelayLogInfo
}.

Section SetActive.

(** [utils.ParseSuffixForUUID], second result (the callers discard the
    first and the error), and [strategyFilename.String()]: both are
    declared elsewhere, so the method is embedded for any value of them. *)
Variable ParseSuffixForUUID : string -> Z.
Variable fakeTaskName : string.

(** Lines 29-33: the sub-directory the request names. *)
Definition targetUUID (fa : filenameArgs) : string :=
  if (len (subDir fa) =? 0) && (0 <? Z.of_nat (List.length (uuids fa)))
  then last (uuids fa) ""
  else subDir fa.

Definition endSuffixOf (fa : filenameArgs) : Z :=
  ParseSuffixForUUID (targetUUID fa).

(** Lines 36-41: the safe relay log as requested. *)
Definition requestedRelayLog (fa : filenameArgs) : RelayLogInfo :=
  {| TaskName   := fakeTaskName;
     UUID       := targetUUID fa;
     UUIDSuffix := endSuffixOf fa;
     Filename   := filename fa |}.

(** Lines 50-57: the loop over [fa.uuids]; [acc] is the slice [uuids]
    being appended to, and the first arm is the [break]. *)
Fixpoint discardNewer (endSuffix : Z) (rest acc : list string)
  : list string :=
  match rest with
  | [] => acc
  | uuid :: rest' =>
      if endSuffix <? ParseSuffixForUUID uuid then acc
      else discardNewer endSuffix rest' (acc ++ [uuid])
  end.

(** [active] is the hint the purger passes in; the method reads its
    fields, so it is taken as a value (a non-nil pointer). *)
Definition SetActiveRelayLog (fa : filenameArgs) (active : RelayLogInfo)
  : filenameArgs :=
  let endSuffix := endSuffixOf fa in
  let safe := requestedRelayLog fa in
  let safe := if Earlier active safe then active else safe in
  {| relayBaseDir := relayBaseDir fa;
     filename     := filename fa;
     subDir       := subDir fa;
     uuids        := discardNewer endSuffix (uuids fa) [];
     safeRelayLog := Some safe |}.

(** The safe relay log after the call (never nil). *)
Definition safeAfter (fa : filenameArgs) (active : RelayLogInfo)
  : RelayLogInfo :=
  match safeRelayLog (SetActiveRelayLog fa active) with
  | Some r => r
  | None => requestedRelayLog fa
  end.

(** Suffixes never decrease along the list (invariant I1 of the index). *)
Fixpoint suffixSorted (l : list string) : Prop :=
  match l with
  | [] => True
  | u :: l' =>
      (forall v, In v l' -> ParseSuffixForUUID u <= ParseSuffixForUUID v)
      /\ suffixSorted l'
  end.

End SetActive.

(** What claim C3 says of the list left by [SetActiveRelayLog]: exactly
    the sub-directories whose suffix is not greater than the suffix of
    the resulting [safeRelayLog]. *)
Definition uuidsCutAtSafe (parse : string -> Z) (taskName : string)
           (fa : filenameArgs) (active : RelayLogInfo) : Prop :=
  forall u,
    In u (uuids (SetActiveRelayLog parse taskName fa active))
    <-> In u (uuids fa)
        /\ parse u <= UUIDSuffix (safeAfter parse taskName fa active).

(** ** The strategy object and the purge it guards *)

(** [filenameStrategy]: the [sync2.AtomicInt32] flag. *)
Record filenameStrategy : Type := mkStrategy { purging : Z }.

Definition newFilenameStrategy : filenameStrategy := {| purging := 0 |}.

(** [sync2.AtomicInt32]: each operation is one atomic access. *)
Definition CompareAndSwap (s : filenameStrategy) (oldval newval : Z)
  : bool * filenameStrategy :=
  if purging s =? oldval then (true, {| purging := newval |})
  else (false, s).

Definition Set_ (s : filenameStrategy) (v : Z) : filenameStrategy :=
  {| purging := v |}.

Definition Get (s : filenameStrategy) : Z := purging s.

(** Line 95. *)
Definition Purging (s : filenameStrategy) : bool := 0 <? Get s.

(** The relay directory on disk: each sub-directory path with the names
    of the relay files it holds. *)
Definition FS : Type := list (string * list string).

Definition dirPath (base uuid : string) : string :=
  String.append base (String.append "/" uuid).

Definition filesOf (fs : FS) (dir : string) : list string :=
  match find (fun e => String.eqb (fst e) dir) fs with
  | Some (_, files) => files
  | None => []
  end.

Definition hasFile (fs : FS) (dir file : string) : bool :=
  existsb (String.eqb file) (filesOf fs dir).

Definition dropFile (fs : FS) (dir file : string) : FS :=
  map (fun e =>
         if String.eqb (fst e) dir
         then (fst e, filter (fun f => negb (String.eqb f file)) (snd e))
         else e) fs.

(** The value [args interface{}] of [Check] and [Do]: a [*filenameArgs]
    or a value of another dynamic type. *)
Inductive Args : Type :=
| ArgsFilename (fa : filenameArgs)
| ArgsOther.

(** The errors [Do] returns: [ErrSelfPurging], [errors.NotValidf ...] and
    [errors.Trace] around the failure of removing one file. *)
Inductive DoError : Type :=
| ErrSelfPurging
| ErrNotValid
| ErrTrace (dir file : string).

(** How a call ends.  A nil [safeRelayLog] is dereferenced by the purge;
    the panic still runs the deferred reset. *)
Inductive Outcome : Type :=
| Returned (err : option DoError)
| Panicked.

(** The parts of what [Do] yields. *)
Definition outcomeOf (r : filenameStrategy * FS * Outcome) : Outcome :=
  snd r.
Definition strategyOf (r : filenameStrategy * FS * Outcome)
  : filenameStrategy := fst (fst r).

(** Line 76: never purge in the background. *)
Definition Check (s : filenameStrategy) (args : Args)
  : bool * option DoError := (false, None).

Section Strategy.

(** Files the operating system refuses to remove. *)
Variable undeletable : string -> string -> bool.

(** Modelled from the spec: [purgeRelayFilesBeforeFile] is declared in
    another file of the purger package, not available.  "Delete all files in
    uuids[0..n-2] fully; in uuids[n-1], delete files lex-earlier than
    safeRelayLog.filename": first the files are collected ... *)
Fixpoint collectFiles (fs : FS) (base : string) (uuids : list string)
         (safeName : string) : list (string * string) :=
  match uuids with
  | [] => []
  | [uuid] =>
      let dir := dirPath base uuid in
      map (fun f => (dir, f))
          (filter (fun f => strLess f safeName) (filesOf fs dir))
  | uuid :: rest =>
      let dir := dirPath base uuid in
      map (fun f => (dir, f)) (filesOf fs dir)
      ++ collectFiles fs base rest safeName
  end.

(** ... then removed one at a time: "best-effort per file; first error
    aborts and is surfaced". *)
Definition removeFile (fs : FS) (dir file : string) : option FS :=
  if hasFile fs dir file && negb (undeletable dir file)
  then Some (dropFile fs dir file)
  else None.

Fixpoint removeAll (fs : FS) (work : list (string * string))
  : FS * option DoError :=
  match work with
  | [] => (fs, None)
  | (dir, file) :: work' =>
      match removeFile fs dir file with
      | Some fs' => removeAll fs' work'
      | None => (fs, Some (ErrTrace dir file))
      end
  end.

Definition purgeRelayFilesBeforeFile (fs : FS) (base : string)
           (uuids : list string) (safe : RelayLogInfo)
  : FS * option DoError :=
  removeAll fs (collectFiles fs base uuids (Filename safe)).

(** Lines 81-93, one call running alone.  The deferred [Set(0)] is the
    last thing done on every path that passed the compare-and-swap. *)
Definition Do (s : filenameStrategy) (fs : FS) (args : Args)
  : filenameStrategy * FS * Outcome :=
  let '(swapped, s1) := CompareAndSwap s 0 1 in
  if negb swapped then (s1, fs, Returned (Some ErrSelfPurging))
  else
    let '(fs', out) :=
      match args with
      | ArgsOther => (fs, Returned (Some ErrNotValid))
      | ArgsFilename fa =>
          match safeRelayLog fa with
          | None => (fs, Panicked)
          | Some safe =>
              let '(fs', err) :=
                purgeRelayFilesBeforeFile fs (relayBaseDir fa)
                                          (uuids fa) safe in
              (fs', Returned err)
          end
      end in
    (Set_ s1 0, fs', out).

(** A run of calls one after the other on the same strategy. *)
Fixpoint DoAll (s : filenameStrategy) (fs : FS) (calls : list Args)
  : filenameStrategy * FS * list Outcome :=
  match calls with
  | [] => (s, fs, [])
  | a :: calls' =>
      let '(s1, fs1, out) := Do s fs a in
      let '(s2, fs2, outs) := DoAll s1 fs1 calls' in
      (s2, fs2, out :: outs)
  end.

(** ** Calls running concurrently

    Each call is a thread; every access to the flag and every removal
    of a file is one atomic step, and a schedule picks the thread that
    takes the next step. *)

Inductive PC : Type :=
| AtCAS                                      (* line 82 *)
| Entered                                    (* lines 85-87 *)
| Deleting (work : list (string * string))   (* line 92, in the purge *)
| Deferred (out : Outcome)                   (* line 85, on the way out *)
| Done (out : Outcome).

Record World : Type := mkWorld {
  strategy : filenameStrategy;
  disk     : FS;
  pcs      : nat -> PC;
  removals : list (nat * (string * string))  (* who removed what *)
}.

Definition setPC (pcs : nat -> PC) (i : nat) (pc : PC) : nat -> PC :=
  fun j => if Nat.eqb j i then pc else pcs j.

(** The calls' arguments. *)
Variable argsOf : nat -> Args.

Definition stepThread (w : World) (i : nat) : World :=
  match pcs w i with
  | AtCAS =>
      let '(swapped, s1) := CompareAndSwap (strategy w) 0 1 in
      if swapped
      then mkWorld s1 (disk w) (setPC (pcs w) i Entered) (removals w)
      else mkWorld s1 (disk w)
                   (setPC (pcs w) i (Done (Returned (Some ErrSelfPurging))))
                   (removals w)
  | Entered =>
      let pc :=
        match argsOf i with
        | ArgsOther => Deferred (Returned (Some ErrNotValid))
        | ArgsFilename fa =>
            match safeRelayLog fa with
            | None => Deferred Panicked
            | Some safe =>
                Deleting (collectFiles (disk w) (relayBaseDir fa)
                                       (uuids fa) (Filename safe))
            end
        end in
      mkWorld (strategy w) (disk w) (setPC (pcs w) i pc) (removals w)
  | Deleting [] =>
      mkWorld (strategy w) (disk w)
              (setPC (pcs w) i (Deferred (Returned None))) (removals w)
  | Deleting ((dir, file) :: work') =>
      match removeFile (disk w) dir file with
      | Some fs' =>
          mkWorld (strategy w) fs' (setPC (pcs w) i (Deleting work'))
                  ((i, (dir, file)) :: removals w)
      | None =>
          mkWorld (strategy w) (disk w)
                  (setPC (pcs w) i
                         (Deferred (Returned (Some (ErrTrace dir file)))))
                  (removals w)
      end
  | Deferred out =>
      mkWorld (Set_ (strategy w) 0) (disk w)
              (setPC (pcs w) i (Done out)) (removals w)
  | Done _ => w
  end.

Fixpoint exec (w : World) (schedule : list nat) : World :=
  match schedule with
  | [] => w
  | i :: schedule' => exec (stepThread w i) schedule'
  end.

(** All calls are about to start and nobody is purging. *)
Definition initWorld (fs : FS) : World :=
  mkWorld newFilenameStrategy fs (fun _ => AtCAS) [].

(** The call is past the compare-and-swap and has not yet reset the
    flag: its purge is running. *)
Definition inPurge (pc : PC) : bool :=
  match pc with
  | Entered | Deleting _ | Deferred _ => true
  | AtCAS | Done _ => false
  end.

Definition rejected (pc : PC) : bool :=
  match pc with
  | Done (Returned (Some ErrSelfPurging)) => true
  | _ => false
  end.

(** The call went through the compare-and-swap. *)
Definition admitted (pc : PC) : bool :=
  match pc with
  | AtCAS => false
  | pc => negb (rejected pc)
  end.

Definition removedBy (w : World) (i : nat) : list (string * string) :=
  map snd (filter (fun e => Nat.eqb (fst e) i) (removals w)).

(** What holds of every world the calls can reach: the flag is 1
    exactly while one call is purging, no two calls are, a call that
    has not passed the compare-and-swap has removed nothing, and a
    rejected call was rejected because of another, admitted, call. *)
Record singleFlight (w : World) : Prop := mkSingleFlight {
  sf_flag   : purging (strategy w) = 0 \/ purging (strategy w) = 1;
  sf_idle   : purging (strategy w) = 0 ->
              forall i, inPurge (pcs w i) = false;
  sf_busy   : purging (strategy w) = 1 ->
              exists i, inPurge (pcs w i) = true;
  sf_one    : forall i j, inPurge (pcs w i) = true ->
                          inPurge (pcs w j) = true -> i = j;
  sf_defer  : forall i out, pcs w i = Deferred out ->
                            rejected (Done out) = false;
  sf_clean  : forall i, admitted (pcs w i) = false ->
                        removedBy w i = [];
  sf_other  : forall i, rejected (pcs w i) = true ->
                        exists j, j <> i /\ admitted (pcs w j) = true
}.

End Strategy.

End Purger.

(* ================================================================== *)
(** * pkg/gtid: GTID sets *)
(* ================================================================== *)

Module Gtid.

(** A closed interval [first-last] of transaction numbers. *)
Definition Interval : Type := (Z * Z)%type.

(** A GTID set in its textual layout: origins (server UUIDs), each with
    its intervals; [uuid:1-14,uuid2:1-495] is
    [[(uuid, [(1,14)]); (uuid2, [(1,495)])]]. *)
Definition GTIDSet : Type := list (string * list Interval).

Definition inIntervals (n : Z) (ivs : list Interval) : bool :=
  existsb (fun iv => (fst iv <=? n) && (n <=? snd iv)) ivs.

(** Transaction [sid:n] belongs to the set. *)
Definition member (gs : GTIDSet) (sid : string) (n : Z) : bool :=
  existsb (fun e => String.eqb (fst e) sid && inIntervals n (snd e)) gs.

(** The numbers [a, a+1, ..., b]. *)
Definition zrange (a b : Z) : list Z :=
  map (fun k => a + Z.of_nat k) (seq 0 (Z.to_nat (b - a + 1))).

(** Every transaction [sid:a] ... [sid:b] belongs to the set. *)
Definition covers (gs : GTIDSet) (sid : string) (a b : Z) : bool :=
  forallb (member gs sid) (zrange a b).

(** [super.Contain(sub)]. *)
Definition Contain (super sub : GTIDSet) : bool :=
  forallb (fun e =>
             forallb (fun iv => covers super (fst e) (fst iv) (snd iv))
                     (snd e))
          sub.

Definition Equal (a b : GTIDSet) : bool := Contain a b && Contain b a.

(** The union; a set already contained adds nothing. *)
Definition Union (a b : GTIDSet) : GTIDSet :=
  if Contain a b then a else a ++ b.

(** No transaction at all: the set an empty string parses to, among
    others. *)
Definition isEmpty (gs : GTIDSet) : bool :=
  forallb (fun e => forallb (fun iv => snd iv <? fst iv) (snd e)) gs.

(** Adds [n] to a list of intervals: the interval ending at [n-1] grows,
    or a new one is appended. *)
Fixpoint addToIntervals (n : Z) (ivs : list Interval) : list Interval :=
  match ivs with
  | [] => [(n, n)]
  | (a, b) :: ivs' =>
      if b + 1 =? n then (a, n) :: ivs'
      else (a, b) :: addToIntervals n ivs'
  end.

(** Adds transaction [sid:n]. *)
Fixpoint addGTID (sid : string) (n : Z) (gs : GTIDSet) : GTIDSet :=
  match gs with
  | [] => [(sid, [(n, n)])]
  | (sid', ivs) :: gs' =>
      if String.eqb sid' sid then (sid', addToIntervals n ivs) :: gs'
      else (sid', ivs) :: addGTID sid n gs'
  end.

End Gtid.

(* ================================================================== *)
(** * relay: meta store, recovery of the latest file, event pump *)
(* ================================================================== *)

Module Relay.

Import Gtid.

(** ** Binlog positions and events *)

Record Position : Type := mkPosition { Name : string; Pos : Z }.

Definition minCheckpoint : Position := {| Name := ""; Pos := 4 |}.

Inductive EventType : Type :=
| FORMAT_DESCRIPTION_EVENT
| PREVIOUS_GTIDS_EVENT
| GTID_EVENT
| QUERY_EVENT
| XID_EVENT
| ROTATE_EVENT
| HEARTBEAT_EVENT
| TABLE_MAP_EVENT
| WRITE_ROWS_EVENTv2.

Record EventHeader : Type := mkHeader {
  Timestamp : Z;
  ServerID  : Z;
  EvType    : EventType;
  LogPos    : Z
}.

(** The typed body of an event. *)
Inductive EventBody : Type :=
| FormatDescriptionEvent
| PreviousGTIDsEvent (gs : GTIDSet)
| GTIDEvent (sid : string) (gno : Z)
| QueryEvent (GSet : option GTIDSet) (query : string)
| XIDEvent (GSet : option GTIDSet)
| RotateEvent (NextLogName : string) (Position : Z)
| GenericEvent.

Record BinlogEvent : Type := mkEvent {
  Header : EventHeader;
  Event  : EventBody
}.

(** ** Meta store *)

(** Modelled from the spec: the meta store lives in relay/meta.go, whose
    source is not available.  Position and GTID set are buffered by [Save]
    and reach the meta file with [Flush]; [dirty] tells them apart. *)
Record Meta : Type := mkMeta {
  index       : list string;   (* server-uuid.index, one name per line *)
  currentUUID : string;        (* the active sub-directory *)
  pos         : Position;
  gset        : GTIDSet;
  dirty       : bool;
  diskPos     : Position;      (* relay.meta as last flushed *)
  diskGSet    : GTIDSet
}.

Definition emptyMeta : Meta :=
  {| index := []; currentUUID := ""; pos := minCheckpoint; gset := [];
     dirty := false; diskPos := minCheckpoint; diskGSet := [] |}.

Definition Save (m : Meta) (p : Position) (gs : GTIDSet) : Meta :=
  {| index := index m; currentUUID := currentUUID m;
     pos := p; gset := gs; dirty := true;
     diskPos := diskPos m; diskGSet := diskGSet m |}.

Definition Flush (m : Meta) : Meta :=
  {| index := index m; currentUUID := currentUUID m;
     pos := pos m; gset := gset m; dirty := false;
     diskPos := pos m; diskGSet := gset m |}.

Definition Dirty (m : Meta) : bool := dirty m.

(** Decimal digit [k] (from the right) of [n]. *)
Definition digitAt (n : Z) (k : nat) : ascii :=
  ascii_of_nat (48 + Z.to_nat ((n / 10 ^ Z.of_nat k) mod 10)).

(** The suffix in width 6, zero-padded. *)
Definition suffixString (n : Z) : string :=
  fold_right (fun k acc => String (digitAt n k) acc) EmptyString
             [5; 4; 3; 2; 1; 0]%nat.

Definition subDirName (uuid : string) (suffix : Z) : string :=
  String.append uuid (String.append "." (suffixString suffix)).

(** [AddDir(uuid, pos?, gset?, suffix?)]: a suffix of 0 stands for "the
    last suffix plus one, or 1 if none". *)
Definition AddDir (parse : string -> Z) (m : Meta) (uuid : string)
           (p : option Position) (gs : option GTIDSet) (suffix : Z) : Meta :=
  let suffix' :=
    if suffix =? 0
    then match index m with
         | [] => 1
         | _ => parse (last (index m) "") + 1
         end
    else suffix in
  let name := subDirName uuid suffix' in
  let p' := match p with Some p => p | None => minCheckpoint end in
  let gs' := match gs with Some g => g | None => [] end in
  {| index := index m ++ [name]; currentUUID := name;
     pos := p'; gset := gs'; dirty := false;
     diskPos := p'; diskGSet := gs' |}.

(** ** Recovery of the latest relay file *)

(** Modelled from the spec: [utils.AddGSetWithPurged], used by
    [tryRecoverLatestFile]; its source is not available.  "If the
    server-reported gtid_purged is known and non-empty, extend each origin
    range in computedGTIDs to start at 1 when the purged range covers
    [1, start-1]". *)
Definition extendInterval (purged : GTIDSet) (sid : string) (iv : Interval)
  : Interval :=
  if covers purged sid 1 (fst iv - 1) then (1, snd iv) else iv.

Definition AddGSetWithPurged (purged : option GTIDSet) (gs : GTIDSet)
  : GTIDSet :=
  match purged with
  | None => gs
  | Some p =>
      if isEmpty p then gs
      else map (fun e => (fst e, map (extendInterval p (fst e)) (snd e))) gs
  end.

(** Modelled from the spec: step 6 of [tryRecoverLatestFile].  "If
    persisted gset is a superset of computedGTIDs, keep persisted.  If
    persisted is a strict subset or incomparable, replace with
    computedGTIDs", the computed set being the one already extended. *)
Definition reconcile (persisted computed : GTIDSet)
           (purged : option GTIDSet) : GTIDSet :=
  let computed' := AddGSetWithPurged purged computed in
  if Contain persisted computed' then persisted else computed'.

Inductive RecoverError : Type := MetaCorrupt.

(** The relay as recovery sees it: the meta, the relay files by path and
    what the upstream reports as [@@GLOBAL.gtid_purged] ([None]: not
    known). *)
Record RelayState : Type := mkRelayState {
  meta       : Meta;
  files      : list (string * list Byte.byte);
  gtidPurged : option GTIDSet
}.

Definition relayPath (m : Meta) (name : string) : string :=
  String.append (currentUUID m) (String.append "/" name).

Definition readFile (fs : list (string * list Byte.byte)) (path : string)
  : option (list Byte.byte) :=
  match find (fun e => String.eqb (fst e) path) fs with
  | Some (_, data) => Some data
  | None => None
  end.

Definition writeFile (fs : list (string * list Byte.byte)) (path : string)
           (data : list Byte.byte) : list (string * list Byte.byte) :=
  map (fun e => if String.eqb (fst e) path then (fst e, data) else e) fs.

Section Recovery.

(** The binlog event parser, an input of the recovery: [parseEvent bytes]
    is the event the bytes start with and the number of bytes it takes, or
    [None] at a parse error or an incomplete event. *)
Variable parseEvent : list Byte.byte -> option (BinlogEvent * nat).

(** Modelled from the spec: steps 3 and 4 of [tryRecoverLatestFile].  The
    events parsed one after the other from offset [off], each with its end
    offset, up to the first parse error or incomplete event.  Every event
    takes at least one byte, so [fuel] as large as the data is enough. *)
Fixpoint parseAll (fuel : nat) (data : list Byte.byte) (off : nat)
  : list (BinlogEvent * nat) :=
  match fuel with
  | O => []
  | S fuel' =>
      match parseEvent data with
      | Some (ev, size) =>
          if (0 <? size)%nat && (size <=? List.length data)%nat
          then (ev, (off + size)%nat)
                 :: parseAll fuel' (skipn size data) (off + size)%nat
          else []
      | None => []
      end
  end.

Definition completeEvents (data : list Byte.byte)
  : list (BinlogEvent * nat) :=
  parseAll (List.length data) data 0%nat.

(** End offset of the last complete event. *)
Definition lastGoodPos (evs : list (BinlogEvent * nat)) : nat :=
  last (map snd evs) 0%nat.

(** The GTID set after the events that follow the file header. *)
Fixpoint computeGTIDs (gs : GTIDSet) (evs : list (BinlogEvent * nat))
  : GTIDSet :=
  match evs with
  | [] => gs
  | (ev, _) :: evs' =>
      match Event ev with
      | GTIDEvent sid gno => computeGTIDs (addGTID sid gno gs) evs'
      | _ => computeGTIDs gs evs'
      end
  end.

(** The file header: a format-description event, then a previous-GTIDs
    event; the value is the set of that event and the events after it. *)
Definition fileHeader (evs : list (BinlogEvent * nat))
  : option (GTIDSet * list (BinlogEvent * nat)) :=
  match evs with
  | (e1, _) :: (e2, _) :: rest =>
      match Event e1, Event e2 with
      | FormatDescriptionEvent, PreviousGTIDsEvent gs => Some (gs, rest)
      | _, _ => None
      end
  | _ => None
  end.

(** Modelled from the spec: [tryRecoverLatestFile] is in relay/relay.go,
    whose source is not available; steps 1 to 7 of the recovery algorithm. *)
Definition tryRecoverLatestFile (r : RelayState)
  : RelayState + RecoverError :=
  let m := meta r in
  if String.eqb (Name (pos m)) "" then inl r
  else
    let path := relayPath m (Name (pos m)) in
    match readFile (files r) path with
    | None => inl r
    | Some data =>
        let evs := completeEvents data in
        match fileHeader evs with
        | None => inr MetaCorrupt
        | Some (previous, rest) =>
            let good := lastGoodPos evs in
            let files' :=
              if (good <? List.length data)%nat
              then writeFile (files r) path (firstn good data)
              else files r in
            let computed := computeGTIDs previous rest in
            let gs := reconcile (gset m) computed (gtidPurged r) in
            let p := {| Name := Name (pos m); Pos := Z.of_nat good |} in
            inl {| meta := Flush (Save m p gs);
                   files := files';
                   gtidPurged := gtidPurged r |}
        end
    end.

(** The bytes at [off] start with a complete event. *)
Definition eventAt (data : list Byte.byte) (off : nat) : bool :=
  match parseEvent (skipn off data) with
  | Some (_, size) =>
      (0 <? size)%nat && (size <=? List.length data - off)%nat
  | None => false
  end.

(** [offs] are the end offsets of complete events laid end to end from
    offset [from]. *)
Fixpoint eventChain (data : list Byte.byte) (from : nat) (offs : list nat)
  : Prop :=
  match offs with
  | [] => True
  | o :: offs' =>
      (exists ev size,
          parseEvent (skipn from data) = Some (ev, size)
          /\ (0 < size)%nat /\ o = (from + size)%nat
          /\ (o <= List.length data)%nat)
      /\ eventChain data o offs'
  end.

End Recovery.

(** A framing to run the recovery on concrete files, the binlog codec
    being an external collaborator: one byte with the size of the frame,
    one byte that picks the event in a code book, then padding. *)
Definition codebookParser (book : list BinlogEvent) (bytes : list Byte.byte)
  : option (BinlogEvent * nat) :=
  match bytes with
  | size :: code :: _ =>
      match nth_error book (Byte.to_nat code) with
      | Some ev => Some (ev, Byte.to_nat size)
      | None => None
      end
  | _ => None
  end.

Definition byteOf (n : nat) : Byte.byte :=
  match Byte.of_nat n with Some b => b | None => Byte.x00 end.

Definition frame (size code : nat) : list Byte.byte :=
  byteOf size :: byteOf code :: repeat Byte.x00 (size - 2).

(** Lays events out in a file: event [i] of the list is framed with code
    [i], and its header records the offset it ends at. *)
Fixpoint genEvents (bodies : list (EventType * EventBody * nat))
         (code off : nat) : list BinlogEvent * list Byte.byte :=
  match bodies with
  | [] => ([], [])
  | (ty, body, size) :: bodies' =>
      let ev := {| Header := {| Timestamp := 0; ServerID := 11;
                                EvType := ty;
                                LogPos := Z.of_nat (off + size) |};
                   Event := body |} in
      let '(evs, data) := genEvents bodies' (S code) (off + size) in
      (ev :: evs, frame size code ++ data)
  end.

(** ** The event pump *)

(** The errors a reader hands to the pump: the two ways a context ends,
    the three named replication errors, and any other. *)
Inductive Error : Type :=
| ErrContextCanceled
| ErrContextDeadlineExceeded
| ErrChecksumMismatch
| ErrSyncClosed
| ErrNeedSyncAgain
| ErrOther (msg : string).

Definition isCanceled (e : Error) : bool :=
  match e with ErrContextCanceled => true | _ => false end.

(** What [handleEvents] returns. *)
Record PumpResult : Type := mkPumpResult {
  Canceled : bool;
  Err      : option Error
}.

(** [Transformer.Transform]'s result and [Writer.WriteEvent]'s result. *)
Record TransformResult : Type := mkTransformResult {
  tIgnore : bool;
  tEvent  : BinlogEvent
}.

Record WriteResult : Type := mkWriteResult { wIgnore : bool }.

(** Active relay log info, published for the purger. *)
Record ActiveRelayLog : Type := mkActive {
  activeUUID     : string;
  activeFilename : string;
  activeEnd      : Z
}.

Section Pump.

(** The transformer is a pure function; the writer is an object with a
    state of its own. *)
Variable Transform : BinlogEvent -> TransformResult.
Variable W : Type.
Variable WriteEvent : W -> BinlogEvent -> W * (WriteResult + Error).

(** The pump: the meta it advances, the GTID sets merged since the last
    flush (the pending GTID buffer), the writer and the published hint. *)
Record PumpState : Type := mkPumpState {
  pmeta    : Meta;
  pending  : GTIDSet;
  writer   : W;
  activeRL : option ActiveRelayLog
}.

Definition committedGSet (ev : BinlogEvent) : option GTIDSet :=
  match Event ev with
  | QueryEvent (Some gs) _ => Some gs
  | XIDEvent (Some gs) => Some gs
  | _ => None
  end.

(** Modelled from the spec: step 5 of the pump, the meta update rules. *)
Definition updateMeta (m : Meta) (buffer : GTIDSet) (ev : BinlogEvent)
  : Meta * GTIDSet :=
  match Event ev with
  | RotateEvent name _ =>
      (Flush (Save m {| Name := name; Pos := 4 |} (gset m)), [])
  | _ =>
      let p := {| Name := Name (pos m); Pos := LogPos (Header ev) |} in
      match committedGSet ev with
      | Some gs => (Save m p (Union (gset m) gs), Union buffer gs)
      | None => (Save m p (gset m), buffer)
      end
  end.

(** Step 6: the hint for the purger. *)
Definition publish (m : Meta) (ev : BinlogEvent) : ActiveRelayLog :=
  {| activeUUID := currentUUID m;
     activeFilename := Name (pos m);
     activeEnd := LogPos (Header ev) |}.

(** Modelled from the spec: steps 3 to 6 of one iteration of
    [handleEvents], which is in relay/relay.go, not available.  An event
    the transformer ignores is not written; an event the writer ignores
    skips the meta update and the hint that goes with it.  The value is
    the state to go on with, or the state and the error to return with. *)
Definition handleEvent (st : PumpState) (ev : BinlogEvent)
  : PumpState + (PumpState * Error) :=
  let tev := Transform ev in
  if tIgnore tev then inl st
  else
    let '(w', wres) := WriteEvent (writer st) (tEvent tev) in
    match wres with
    | inr e =>
        inr ({| pmeta := pmeta st; pending := pending st;
                writer := w'; activeRL := activeRL st |}, e)
    | inl res =>
        if wIgnore res
        then inl {| pmeta := pmeta st; pending := pending st;
                    writer := w'; activeRL := activeRL st |}
        else
          let '(m', buffer') := updateMeta (pmeta st) (pending st) ev in
          inl {| pmeta := m'; pending := buffer';
                 writer := w'; activeRL := Some (publish m' ev) |}
    end.

(** Modelled from the spec: the loop of [handleEvents].  [reader] lists
    what the successive calls of [Reader.GetEvent] return; when it runs
    out the reader blocks and the pump does not return ([None]). *)
Fixpoint handleEvents (reader : list (BinlogEvent + Error))
         (st : PumpState) : option (PumpState * PumpResult) :=
  match reader with
  | [] => None
  | inr e :: _ =>
      if isCanceled e
      then Some (st, {| Canceled := true; Err := None |})
      else Some (st, {| Canceled := false; Err := Some e |})
  | inl ev :: reader' =>
      match handleEvent st ev with
      | inl st' => handleEvents reader' st'
      | inr (st', e) => Some (st', {| Canceled := false; Err := Some e |})
      end
  end.

(** The events of a prefix of the reader all go through. *)
Fixpoint allHandled (evs : list BinlogEvent) (st : PumpState)
  : option PumpState :=
  match evs with
  | [] => Some st
  | ev :: evs' =>
      match handleEvent st ev with
      | inl st' => allHandled evs' st'
      | inr _ => None
      end
  end.

End Pump.

Arguments mkPumpState {W} _ _ _ _.
Arguments pmeta {W} _.
Arguments pending {W} _.
Arguments writer {W} _.
Arguments activeRL {W} _.
Arguments handleEvent Transform {W} WriteEvent st ev.
Arguments handleEvents Transform {W} WriteEvent reader st.
Arguments allHandled Transform {W} WriteEvent evs st.

(** The transformer of the tests: heartbeats are noise. *)
Definition heartbeatTransformer (ev : BinlogEvent) : TransformResult :=
  {| tIgnore := match EvType (Header ev) with
                | HEARTBEAT_EVENT => true
                | _ => false
                end;
     tEvent := ev |}.

(** [mockWriter] of the tests: it holds the latest event and answers with
    the result and error it was set up with. *)
Record mockWriter : Type := mkMockWriter {
  mwResult    : WriteResult;
  mwErr       : option Error;
  latestEvent : option BinlogEvent
}.

Definition mockWriteEvent (w : mockWriter) (ev : BinlogEvent)
  : mockWriter * (WriteResult + Error) :=
  let w' := {| mwResult := mwResult w; mwErr := mwErr w;
               latestEvent := Some ev |} in
  (w', match mwErr w with Some e => inr e | None => inl (mwResult w) end).

End Relay.

(* ================================================================== *)
(** * dm/worker: the relay holder *)
(* ================================================================== *)

Module Holder.

Inductive Stage : Type := New | Running | Paused | Stopped.

Inductive RelayOp : Type :=
| PauseRelay | ResumeRelay | StopRelay | InvalidRelayOp.

Record ProcessResult : Type := mkProcessResult {
  IsCanceled : bool;
  Errors     : list string
}.

Record RelayError : Type := mkRelayError { Msg : string }.

Record RelayStatus : Type := mkRelayStatus {
  StatusStage  : Stage;
  StatusResult : option ProcessResult
}.

Inductive HolderError : Type :=
| ErrInit (msg : string)
| ErrReload (msg : string)
| ErrInvalidStage (msg : string)
| ErrUnsupportedOp.

(** The inner relay the holder drives, as [DummyRelay] of the tests lets
    one set it up: what [Init] and [Reload] fail with, what the pump
    returns once cancelled, and what [Error] reports. *)
Record Inner : Type := mkInner {
  initErr       : option string;
  processResult : ProcessResult;
  errorInfo     : option RelayError;
  reloadErr     : option string
}.

(** Modelled from the spec: [realRelayHolder] is in dm/worker/relay.go,
    whose source is not available.  [pumpLive] tells whether the pump
    worker runs. *)
Record Holder : Type := mkHolder {
  stage    : Stage;
  closed   : bool;
  result   : option ProcessResult;
  pumpLive : bool
}.

Definition NewRealRelayHolder : Holder :=
  {| stage := New; closed := false; result := None; pumpLive := false |}.

Definition stageName (s : Stage) : string :=
  match s with
  | New => "New" | Running => "Running"
  | Paused => "Paused" | Stopped => "Stopped"
  end.

Definition Stage_ (h : Holder) : Stage := stage h.
Definition Result (h : Holder) : option ProcessResult := result h.

(** [Init]: errors surface unchanged; the state stays as it is. *)
Definition Init (inner : Inner) (h : Holder) : Holder * option HolderError :=
  match initErr inner with
  | Some msg => (h, Some (ErrInit msg))
  | None => (h, None)
  end.

(** [Start]: from [New] only; later calls are no-ops. *)
Definition Start (h : Holder) : Holder :=
  match stage h with
  | New => {| stage := Running; closed := closed h;
              result := None; pumpLive := true |}
  | _ => h
  end.

(** Cancels the pump and waits for it: the result it exits with. *)
Definition stopPump (inner : Inner) (h : Holder) : option ProcessResult :=
  if pumpLive h then Some (processResult inner) else result h.

Definition pauseRelay (inner : Inner) (h : Holder)
  : Holder * option HolderError :=
  match stage h with
  | Running =>
      ({| stage := Paused; closed := closed h;
          result := stopPump inner h; pumpLive := false |}, None)
  | s => (h, Some (ErrInvalidStage
                     (String.append "current stage is " (stageName s))))
  end.

Definition resumeRelay (h : Holder) : Holder * option HolderError :=
  match stage h with
  | Paused =>
      ({| stage := Running; closed := closed h;
          result := None; pumpLive := true |}, None)
  | s => (h, Some (ErrInvalidStage
                     (String.append "current stage is " (stageName s))))
  end.

Definition stopRelay (inner : Inner) (h : Holder)
  : Holder * option HolderError :=
  match stage h with
  | Stopped =>
      (h, Some (ErrInvalidStage "current stage is already stopped"))
  | _ =>
      ({| stage := Stopped; closed := true;
          result := stopPump inner h; pumpLive := false |}, None)
  end.

Definition Operate (inner : Inner) (h : Holder) (op : RelayOp)
  : Holder * option HolderError :=
  match op with
  | PauseRelay => pauseRelay inner h
  | ResumeRelay => resumeRelay h
  | StopRelay => stopRelay inner h
  | InvalidRelayOp => (h, Some ErrUnsupportedOp)
  end.

(** [Update]: pause the pump if it runs, reload, and go back to the stage
    found; a failed reload leaves the holder paused. *)
Definition Update (inner : Inner) (h : Holder)
  : Holder * option HolderError :=
  let originStage := stage h in
  let h1 := match originStage with
            | Running => fst (pauseRelay inner h)
            | _ => h
            end in
  match reloadErr inner with
  | Some msg => (h1, Some (ErrReload msg))
  | None =>
      match originStage with
      | Running => resumeRelay h1
      | _ => (h1, None)
      end
  end.

(** [Status]: a closed holder reports [Stopped]. *)
Definition Status (h : Holder) : RelayStatus :=
  if closed h then {| StatusStage := Stopped; StatusResult := None |}
  else {| StatusStage := stage h; StatusResult := result h |}.

Definition isPaused (s : Stage) : bool :=
  match s with Paused => true | _ => false end.

(** [Error]: the synthetic message when closed and paused, else the inner
    relay's error info. *)
Definition Error (inner : Inner) (h : Holder) : option RelayError :=
  if closed h && isPaused (stage h) then Some {| Msg := "relay stopped" |}
  else errorInfo inner.

(** [Close]: from any stage but the terminal one. *)
Definition Close (inner : Inner) (h : Holder) : Holder :=
  match stage h with
  | Stopped => h
  | _ => {| stage := Paused; closed := true;
            result := stopPump inner h; pumpLive := false |}
  end.

End Holder.

(* ================================================================== *)
(** * Requests, files, events and holders of the tests and scenarios *)
(* ================================================================== *)

(** ** Purge requests *)

Definition uuid1 : string := "24ecd093-8cec-11e9-aa0d-0242ac170002.000001".
Definition uuid2 : string := "24ecd093-8cec-11e9-aa0d-0242ac170002.000002".

(** A request for the latest sub-directory while the reader is still in the
    first one. *)
Definition requestLatest : Purger.filenameArgs :=
  {| Purger.relayBaseDir := "/relay";
     Purger.filename     := "mysql-bin.000004";
     Purger.subDir       := "";
     Purger.uuids        := [uuid1; uuid2];
     Purger.safeRelayLog := None |}.

Definition activeInFirst : RelayLogInfo :=
  {| TaskName := "task"; UUID := uuid1; UUIDSuffix := 1;
     Filename := "mysql-bin.000003" |}.

Definition relayDisk : Purger.FS :=
  [ (Purger.dirPath "/relay" uuid1,
     ["mysql-bin.000001"; "mysql-bin.000002"; "mysql-bin.000003";
      "mysql-bin.000004"; "mysql-bin.000005"]) ].

Definition requestS6 : Purger.filenameArgs :=
  {| Purger.relayBaseDir := "/relay";
     Purger.filename     := "mysql-bin.000004";
     Purger.subDir       := "";
     Purger.uuids        := [uuid1];
     Purger.safeRelayLog := None |}.

Definition preparedS6 : Purger.filenameArgs :=
  Purger.SetActiveRelayLog Utils.parseSuffix "filename"
                           requestS6 activeInFirst.

Definition noneUndeletable (dir file : string) : bool := false.

(** Call 0 wins the flag and starts removing; call 1 arrives meanwhile. *)
Definition raceSchedule : list nat := [0; 0; 0; 1; 0; 0; 0]%nat.

Definition raceWorld : Purger.World :=
  Purger.exec noneUndeletable (fun _ => Purger.ArgsFilename preparedS6)
              (Purger.initWorld relayDisk) raceSchedule.

(** ** Relay files and their GTID sets *)

Definition sid1 : string := "3ccc475b-2343-11e7-be21-6c0b84d59f30".
Definition sid2 : string := "53bfca22-690d-11e7-8a62-18ded7a37b78".
Definition sid3 : string := "406a3f61-690d-11e7-87c5-6c92bf46f384".

Definition previousGTIDSet : Gtid.GTIDSet :=
  [(sid1, [(1, 14)]); (sid2, [(1, 495)]); (sid3, [(123, 456)])].
Definition recoverGTIDSet : Gtid.GTIDSet :=
  [(sid1, [(1, 17)]); (sid2, [(1, 505)]); (sid3, [(1, 456)])].
Definition recoverGTIDSetUnpurged : Gtid.GTIDSet :=
  [(sid1, [(1, 17)]); (sid2, [(1, 505)]); (sid3, [(123, 456)])].
Definition greaterGTIDSet : Gtid.GTIDSet :=
  [(sid1, [(1, 20)]); (sid2, [(1, 510)]); (sid3, [(123, 456)])].
Definition purgedGTIDSet : Gtid.GTIDSet := [(sid3, [(1, 122)])].

Definition testFilename : string := "mysql-bin.000001".
Definition startPos : Relay.Position :=
  {| Relay.Name := testFilename; Relay.Pos := 123 |}.

(** The events of [genBinlogEventsWithGTIDs]: the file header, 3 DDL and
    10 DML, each transaction under the GTID that follows the latest one. *)
Definition ddlEvents (gno : Z)
  : list (Relay.EventType * Relay.EventBody * nat) :=
  [ (Relay.GTID_EVENT, Relay.GTIDEvent sid1 gno, 65%nat);
    (Relay.QUERY_EVENT, Relay.QueryEvent None "CREATE", 90%nat) ].

Definition dmlEvents (gno : Z)
  : list (Relay.EventType * Relay.EventBody * nat) :=
  [ (Relay.GTID_EVENT, Relay.GTIDEvent sid2 gno, 65%nat);
    (Relay.QUERY_EVENT, Relay.QueryEvent None "BEGIN", 68%nat);
    (Relay.TABLE_MAP_EVENT, Relay.GenericEvent, 40%nat);
    (Relay.WRITE_ROWS_EVENTv2, Relay.GenericEvent, 38%nat);
    (Relay.XID_EVENT, Relay.XIDEvent None, 31%nat) ].

Definition testBodies : list (Relay.EventType * Relay.EventBody * nat) :=
  [ (Relay.FORMAT_DESCRIPTION_EVENT, Relay.FormatDescriptionEvent, 119%nat);
    (Relay.PREVIOUS_GTIDS_EVENT, Relay.PreviousGTIDsEvent previousGTIDSet,
     111%nat) ]
  ++ flat_map ddlEvents [15; 16; 17]
  ++ flat_map dmlEvents (Gtid.zrange 496 505).

Definition testEvents : list Relay.BinlogEvent :=
  fst (Relay.genEvents testBodies 0 0).
Definition testData : list Byte.byte :=
  snd (Relay.genEvents testBodies 0 0).
Definition testParser : list Byte.byte -> option (Relay.BinlogEvent * nat) :=
  Relay.codebookParser testEvents.

Definition invalidData : list Byte.byte :=
  list_byte_of_string "invalid event data".

(** The end of the last event, [g.LatestPos] of the tests. *)
Definition latestPos : Z := 3115.

Definition testMeta : Relay.Meta :=
  Relay.AddDir Utils.parseSuffix Relay.emptyMeta
               "24ecd093-8cec-11e9-aa0d-0242ac170002" (Some startPos) None 0.

Definition testPath : string := Relay.relayPath testMeta testFilename.

Definition SaveMeta (r : Relay.RelayState) (p : Relay.Position)
           (gs : Gtid.GTIDSet) : Relay.RelayState :=
  {| Relay.meta := Relay.Flush (Relay.Save (Relay.meta r) p gs);
     Relay.files := Relay.files r;
     Relay.gtidPurged := Relay.gtidPurged r |}.

Definition appendToFile (r : Relay.RelayState) (path : string)
           (bytes : list Byte.byte) : Relay.RelayState :=
  {| Relay.meta := Relay.meta r;
     Relay.files :=
       map (fun e => if String.eqb (fst e) path
                     then (fst e, snd e ++ bytes) else e) (Relay.files r);
     Relay.gtidPurged := Relay.gtidPurged r |}.

Definition recovered (r : Relay.RelayState) : Relay.RelayState :=
  match Relay.tryRecoverLatestFile testParser r with
  | inl r' => r'
  | inr _ => r
  end.

Definition withFile (purged : option Gtid.GTIDSet) : Relay.RelayState :=
  {| Relay.meta := testMeta;
     Relay.files := [(testPath, testData)];
     Relay.gtidPurged := purged |}.

(** A relay file with a corrupt tail, and a greater GTID set in its meta. *)
Definition brokenRelay : Relay.RelayState :=
  SaveMeta (appendToFile (withFile (Some purgedGTIDSet)) testPath invalidData)
           startPos greaterGTIDSet.

Definition brokenData : list Byte.byte := testData ++ invalidData.

Definition testRest : list (Relay.BinlogEvent * nat) :=
  match Relay.fileHeader (Relay.completeEvents testParser brokenData) with
  | Some (_, rest) => rest
  | None => []
  end.

(** ** Events for the pump *)

Definition binlogPos : Relay.Position :=
  {| Relay.Name := "mysql-bin.666888"; Relay.Pos := 4 |}.

Definition rotateEv : Relay.BinlogEvent :=
  {| Relay.Header := {| Relay.Timestamp := 0; Relay.ServerID := 11;
                        Relay.EvType := Relay.ROTATE_EVENT;
                        Relay.LogPos := 170 |};
     Relay.Event := Relay.RotateEvent "mysql-bin.666888" 4 |}.

(** A MariaDB GTID set, [1-2-3]: domain and server for the origin. *)
Definition queryGSet : Gtid.GTIDSet := [("1-2", [(3, 3)])].

Definition queryEv : Relay.BinlogEvent :=
  {| Relay.Header := {| Relay.Timestamp := 0; Relay.ServerID := 11;
                        Relay.EvType := Relay.QUERY_EVENT;
                        Relay.LogPos := 221 |};
     Relay.Event := Relay.QueryEvent (Some queryGSet)
                                     "CREATE DATABASE db_relay_test" |}.

Definition heartbeatEv : Relay.BinlogEvent :=
  {| Relay.Header := {| Relay.Timestamp := 0; Relay.ServerID := 0;
                        Relay.EvType := Relay.HEARTBEAT_EVENT;
                        Relay.LogPos := 0 |};
     Relay.Event := Relay.GenericEvent |}.

Definition writerWith (ignore : bool) (err : option Relay.Error)
           (latest : option Relay.BinlogEvent) : Relay.mockWriter :=
  {| Relay.mwResult := {| Relay.wIgnore := ignore |};
     Relay.mwErr := err; Relay.latestEvent := latest |}.

Definition pumpStart : Relay.PumpState Relay.mockWriter :=
  {| Relay.pmeta :=
       Relay.AddDir Utils.parseSuffix Relay.emptyMeta
                    "24ecd093-8cec-11e9-aa0d-0242ac170002" None None 0;
     Relay.pending := [];
     Relay.writer := writerWith false None None;
     Relay.activeRL := None |}.

Definition setWriter (st : Relay.PumpState Relay.mockWriter)
           (w : Relay.mockWriter) : Relay.PumpState Relay.mockWriter :=
  {| Relay.pmeta := Relay.pmeta st; Relay.pending := Relay.pending st;
     Relay.writer := w; Relay.activeRL := Relay.activeRL st |}.

Definition pump (reader : list (Relay.BinlogEvent + Relay.Error))
           (st : Relay.PumpState Relay.mockWriter)
  : option (Relay.PumpState Relay.mockWriter * Relay.PumpResult) :=
  Relay.handleEvents Relay.heartbeatTransformer Relay.mockWriteEvent reader st.

(** The mock reader hands out the same event until the context times
    out. *)
Definition untilTimeout (ev : Relay.BinlogEvent)
  : list (Relay.BinlogEvent + Relay.Error) :=
  [inl ev; inl ev; inl ev; inr Relay.ErrContextDeadlineExceeded].

Definition timedOut : Relay.PumpResult :=
  {| Relay.Canceled := false;
     Relay.Err := Some Relay.ErrContextDeadlineExceeded |}.

Definition stateAfter (r : option (Relay.PumpState Relay.mockWriter
                                   * Relay.PumpResult))
  : Relay.PumpState Relay.mockWriter :=
  match r with Some (st, _) => st | None => pumpStart end.

(** ** Holders *)

Definition dummyRelay : Holder.Inner :=
  {| Holder.initErr := None;
     Holder.processResult :=
       {| Holder.IsCanceled := false; Holder.Errors := [] |};
     Holder.errorInfo := None;
     Holder.reloadErr := None |}.

Definition InjectInitError (d : Holder.Inner) (e : option string)
  : Holder.Inner :=
  {| Holder.initErr := e; Holder.processResult := Holder.processResult d;
     Holder.errorInfo := Holder.errorInfo d;
     Holder.reloadErr := Holder.reloadErr d |}.

Definition InjectReloadError (d : Holder.Inner) (e : option string)
  : Holder.Inner :=
  {| Holder.initErr := Holder.initErr d;
     Holder.processResult := Holder.processResult d;
     Holder.errorInfo := Holder.errorInfo d; Holder.reloadErr := e |}.

Definition InjectProcessResult (d : Holder.Inner)
           (r : Holder.ProcessResult) : Holder.Inner :=
  {| Holder.initErr := Holder.initErr d; Holder.processResult := r;
     Holder.errorInfo := Holder.errorInfo d;
     Holder.reloadErr := Holder.reloadErr d |}.

Definition reloadFails : Holder.Inner :=
  InjectReloadError dummyRelay (Some "reload error").

Definition processError : Holder.ProcessResult :=
  {| Holder.IsCanceled := true; Holder.Errors := ["process error"] |}.

(** [testStart]: started, updated twice (the second reload fails), and
    resumed. *)
Definition afterStart : Holder.Holder :=
  let h1 := Holder.Start Holder.NewRealRelayHolder in
  let h2 := fst (Holder.Update dummyRelay h1) in
  let h3 := fst (Holder.Update reloadFails h2) in
  fst (Holder.Operate dummyRelay h3 Holder.ResumeRelay).

(** [testPauseAndResume]. *)
Definition afterPauseAndResume : Holder.Holder :=
  let h1 := fst (Holder.Operate dummyRelay afterStart Holder.PauseRelay) in
  let h2 := fst (Holder.Update dummyRelay h1) in
  let h3 := fst (Holder.Update reloadFails h2) in
  fst (Holder.Operate dummyRelay h3 Holder.ResumeRelay).

(** [testClose]. *)
Definition afterClose : Holder.Holder :=
  Holder.Close (InjectProcessResult dummyRelay processError)
               afterPauseAndResume.

(* ================================================================== *)
(** * Further code of the purger and of the relay tests *)
(* ================================================================== *)

Module Admission.

Import Purger.

(** The step of call [i] is a compare-and-swap that succeeds. *)
Definition admits (w : World) (i : nat) : bool :=
  match pcs w i with
  | AtCAS => purging (strategy w) =? 0
  | _ => false
  end.

(** The calls admitted along a schedule, in the order of their
    compare-and-swap. *)
Fixpoint admitOrder (undeletable : string -> string -> bool)
         (argsOf : nat -> Args) (w : World) (schedule : list nat)
  : list nat :=
  match schedule with
  | [] => []
  | i :: schedule' =>
      (if admits w i then [i] else [])
      ++ admitOrder undeletable argsOf
                    (stepThread undeletable argsOf w i) schedule'
  end.

(** What a call does to the disk once admitted: lines 87-92. *)
Definition body (undeletable : string -> string -> bool)
           (fs : FS) (args : Args) : FS * Outcome :=
  match args with
  | ArgsOther => (fs, Returned (Some ErrNotValid))
  | ArgsFilename fa =>
      match safeRelayLog fa with
      | None => (fs, Panicked)
      | Some safe =>
          (fst (purgeRelayFilesBeforeFile undeletable fs (relayBaseDir fa)
                                          (uuids fa) safe),
           Returned (snd (purgeRelayFilesBeforeFile
                            undeletable fs (relayBaseDir fa)
                            (uuids fa) safe)))
      end
  end.

(** Where a call with arguments of another type can be. *)
Definition invalidCallAt (w : World) (i : nat) : Prop :=
  removedBy w i = []
  /\ match pcs w i with
     | AtCAS | Entered => True
     | Deleting _ => False
     | Deferred out => out = Returned (Some ErrNotValid)
     | Done out =>
         out = Returned (Some ErrNotValid)
         \/ out = Returned (Some ErrSelfPurging)
     end.

Section Serial.

Variable undeletable : string -> string -> bool.
Variable argsOf : nat -> Args.

(** The disk before any call. *)
Variable fs0 : FS.

(** The calls [ids] run one after the other on a fresh strategy. *)
Definition seqRun (ids : list nat) : filenameStrategy * FS * list Outcome :=
  DoAll undeletable newFilenameStrategy fs0 (map argsOf ids).

Definition seqDisk (ids : list nat) : FS := snd (fst (seqRun ids)).
Definition seqOuts (ids : list nat) : list Outcome := snd (seqRun ids).

(** Call [k] is purging, and from the disk [D] it started on it is as far
    as its line says. *)
Definition inflight (D : FS) (w : World) (k : nat) : Prop :=
  match pcs w k with
  | Entered => disk w = D
  | Deleting work =>
      exists fa safe,
        argsOf k = ArgsFilename fa
        /\ safeRelayLog fa = Some safe
        /\ removeAll undeletable (disk w) work
           = purgeRelayFilesBeforeFile undeletable D (relayBaseDir fa)
                                       (uuids fa) safe
  | Deferred out => (disk w, out) = body undeletable D (argsOf k)
  | AtCAS | Done _ => False
  end.

(** The world agrees with the admitted calls [ids] run in that order. *)
Record serial (w : World) (ids : list nat) : Prop := mkSerial {
  ser_nodup : NoDup ids;
  ser_ids   : forall i, In i ids <-> admitted (pcs w i) = true;
  ser_quiet : (forall i, inPurge (pcs w i) = false) ->
              disk w = seqDisk ids
              /\ map (pcs w) ids = map Done (seqOuts ids);
  ser_busy  : forall k, inPurge (pcs w k) = true ->
              exists ids',
                ids = ids' ++ [k]
                /\ map (pcs w) ids' = map Done (seqOuts ids')
                /\ inflight (seqDisk ids') w k
}.

End Serial.

End Admission.

Module Strconv.

(** Go's [strconv] on a 64-bit platform, as far as [Atoi] needs it. *)
Inductive NumError : Type := ErrSyntax | ErrRange.

Definition maxUint64 : Z := 2 ^ 64 - 1.

(** The loop of [ParseUint(s, 10, 64)] on the bytes left: a byte that is
    not a digit is a syntax error, and a value that leaves 64 bits is a
    range error, reported at the digit where it happens. *)
Fixpoint parseUintLoop (n : Z) (s : string) : Z * option NumError :=
  match s with
  | EmptyString => (n, None)
  | String c s' =>
      if Utils.isDigit c then
        if maxUint64 / 10 + 1 <=? n then (maxUint64, Some ErrRange)
        else
          let n1 := n * 10 + Utils.digitVal c in
          if maxUint64 <? n1 then (maxUint64, Some ErrRange)
          else parseUintLoop n1 s'
      else (0, Some ErrSyntax)
  end.

Definition ParseUint (s : string) : Z * option NumError :=
  match s with
  | EmptyString => (0, Some ErrSyntax)
  | _ => parseUintLoop 0 s
  end.

(** [ParseInt(s, 10, 0)], to which [Atoi] amounts: its fast path for
    short strings gives the same value and error. *)
Definition Atoi (s : string) : Z * option NumError :=
  match s with
  | EmptyString => (0, Some ErrSyntax)
  | String c rest =>
      let neg := Ascii.eqb c "-"%char in
      let digits := if neg || Ascii.eqb c "+"%char then rest else s in
      match ParseUint digits with
      | (_, Some ErrSyntax) => (0, Some ErrSyntax)
      | (un, _) =>
          if negb neg && (2 ^ 63 <=? un) then (2 ^ 63 - 1, Some ErrRange)
          else if neg && (2 ^ 63 <? un) then (- 2 ^ 63, Some ErrRange)
          else (if neg then - un else un, None)
      end
  end.

(** Powers of ten, to bound decimal values. *)
Definition pow10 (k : nat) : Z := 10 ^ Z.of_nat k.

End Strconv.

Module RelayTest.

(** The fields of [config.DBConfig] that [getDBConfigForTest] sets. *)
Record DBConfig : Type := mkDBConfig {
  Host     : string;
  Port     : Z;
  User     : string;
  Password : string
}.

(** [getDBConfigForTest]; [getenv] is [os.Getenv], empty for a variable
    that is not set. *)
Definition getDBConfigForTest (getenv : string -> string) : DBConfig :=
  let host := getenv "MYSQL_HOST" in
  let host := if String.eqb host "" then "127.0.0.1" else host in
  let port := fst (Strconv.Atoi (getenv "MYSQL_PORT")) in
  let port := if port =? 0 then 3306 else port in
  let user := getenv "MYSQL_USER" in
  let user := if String.eqb user "" then "root" else user in
  let password := getenv "MYSQL_PSWD" in
  {| Host := host; Port := port; User := user; Password := password |}.

(** An environment that sets the port only. *)
Definition envWithPort (port : string) (name : string) : string :=
  if String.eqb name "MYSQL_PORT" then port else "".

End RelayTest.

(** ** Calls and environments to run them on *)

(** Call 1 passes arguments of another type, the others a prepared
    request. *)
Definition mixedArgs (i : nat) : Purger.Args :=
  if Nat.eqb i 1 then Purger.ArgsOther else Purger.ArgsFilename preparedS6.

(** Call 1 is admitted, call 2 arrives meanwhile, call 0 comes after. *)
Definition mixedSchedule : list nat :=
  [1; 2; 1; 1; 0; 0; 0; 0; 0; 0]%nat.

Definition busyStrategy : Purger.filenameStrategy := {| Purger.purging := 1 |}.

(* ================================================================== *)
(** * Properties of [SetActiveRelayLog] *)
(* ================================================================== *)

Section SetActiveFacts.

Import Purger.

Variable parse : string -> Z.
Variable taskName : string.

Lemma discardNewer_takeWhile (e : Z) (l acc : list string) :
  discardNewer parse e l acc
  = acc ++ takeWhile (fun u => parse u <=? e) l.
Proof.
  revert acc; induction l as [|u l IH]; intros acc; simpl.
  - now rewrite app_nil_r.
  - destruct (Z.ltb_spec e (parse u)) as [Hlt|Hge];
      destruct (Z.leb_spec (parse u) e) as [Hle|Hgt]; try lia.
    + now rewrite app_nil_r.
    + rewrite IH, <- app_assoc. reflexivity.
Qed.

Lemma takeWhile_sorted_filter (e : Z) (l : list string) :
  suffixSorted parse l ->
  takeWhile (fun u => parse u <=? e) l
  = filter (fun u => parse u <=? e) l.
Proof.
  induction l as [|u l IH]; simpl; intros Hs; [reflexivity|].
  destruct Hs as [Hu Hs].
  destruct (Z.leb_spec (parse u) e) as [Hle|Hgt].
  - now rewrite IH.
  - symmetry. clear IH Hs. induction l as [|v l IHl]; simpl; [reflexivity|].
    assert (Hv : parse u <= parse v) by (apply Hu; now left).
    destruct (Z.leb_spec (parse v) e); [lia|].
    apply IHl. intros w Hw. apply Hu. now right.
Qed.

Lemma string_compare_refl (s : string) : String.compare s s = Eq.
Proof.
  induction s as [|c s IH]; simpl; [reflexivity|].
  assert (Hc : Ascii.compare c c = Eq).
  { unfold Ascii.compare. apply N.compare_refl. }
  now rewrite Hc.
Qed.

Lemma Earlier_irrefl (r : RelayLogInfo) : Earlier r r = false.
Proof.
  unfold Earlier. rewrite Z.ltb_irrefl.
  unfold strLess, String.ltb.
  now rewrite string_compare_refl.
Qed.

Lemma Earlier_suffix_le (a b : RelayLogInfo) :
  Earlier a b = true -> UUIDSuffix a <= UUIDSuffix b.
Proof.
  unfold Earlier.
  destruct (Z.ltb_spec (UUIDSuffix a) (UUIDSuffix b)); [lia|].
  destruct (Z.ltb_spec (UUIDSuffix b) (UUIDSuffix a)); [discriminate|lia].
Qed.

Lemma safeAfter_eq (fa : filenameArgs) (active : RelayLogInfo) :
  safeAfter parse taskName fa active
  = if Earlier active (requestedRelayLog parse taskName fa)
    then active else requestedRelayLog parse taskName fa.
Proof. reflexivity. Qed.

Lemma targetUUID_eq (fa : filenameArgs) :
  targetUUID fa
  = if String.eqb (subDir fa) "" then last (uuids fa) "" else subDir fa.
Proof.
  unfold targetUUID, len.
  destruct (subDir fa) as [|c s]; simpl.
  - destruct (uuids fa); reflexivity.
  - reflexivity.
Qed.

Lemma safeAfter_suffix_le (fa : filenameArgs) (active : RelayLogInfo) :
  UUIDSuffix (safeAfter parse taskName fa active) <= endSuffixOf parse fa.
Proof.
  rewrite safeAfter_eq.
  destruct (Earlier active (requestedRelayLog parse taskName fa)) eqn:E.
  - apply Earlier_suffix_le in E. exact E.
  - simpl. lia.
Qed.

(** C4: the target sub-directory is [subDir], or the last element of
    [uuids] when [subDir] is empty; [safeRelayLog] is built from it and
    the requested filename, and is replaced by the active relay log
    exactly when that one is earlier, so the active relay log is never
    earlier than the purge point. *)
Theorem SetActiveRelayLog_safe_point
        (fa : filenameArgs) (active : RelayLogInfo) :
  let target :=
    if String.eqb (subDir fa) "" then last (uuids fa) "" else subDir fa in
  let requested :=
    {| TaskName := taskName; UUID := target;
       UUIDSuffix := parse target; Filename := filename fa |} in
  safeRelayLog (SetActiveRelayLog parse taskName fa active)
  = Some (if Earlier active requested then active else requested)
  /\ Earlier active (safeAfter parse taskName fa active) = false.
Proof.
  intros target requested.
  assert (Hreq : requestedRelayLog parse taskName fa = requested).
  { unfold requestedRelayLog, endSuffixOf, requested, target.
    now rewrite targetUUID_eq. }
  split.
  - simpl. now rewrite Hreq.
  - rewrite safeAfter_eq, Hreq.
    destruct (Earlier active requested) eqn:E;
      [apply Earlier_irrefl | exact E].
Qed.


End SetActiveFacts.

(** ** The purger on concrete requests *)

Example parseSuffix_uuid2 : Utils.parseSuffix uuid2 = 2.
Proof. reflexivity. Qed.

Example parseSuffix_malformed :
  Utils.parseSuffix "24ecd093-8cec-11e9-aa0d-0242ac170002" = 0
  /\ Utils.parseSuffix "a.b.000001" = 0
  /\ Utils.parseSuffix "a.12" = 0.
Proof. repeat split. Qed.

(** On a list that is not in suffix order the loop stops at the first
    newer sub-directory, and drops an older one behind it. *)
Example SetActiveRelayLog_stops_at_first_newer :
  Purger.uuids
    (Purger.SetActiveRelayLog
       Utils.parseSuffix "filename"
       {| Purger.relayBaseDir := "/relay";
          Purger.filename     := "mysql-bin.000004";
          Purger.subDir       := "a.000002";
          Purger.uuids        := ["a.000001"; "a.000003"; "a.000002"];
          Purger.safeRelayLog := None |}
       {| TaskName := "task"; UUID := "a.000003"; UUIDSuffix := 3;
          Filename := "mysql-bin.000001" |})
  = ["a.000001"].
Proof. reflexivity. Qed.



(* ================================================================== *)
(** * Properties of [filenameStrategy.Do] *)
(* ================================================================== *)

Section StrategyFacts.

Import Purger.

Variable undeletable : string -> string -> bool.

Local Abbreviation Do := (Purger.Do undeletable).
Local Abbreviation DoAll := (Purger.DoAll undeletable).

Lemma removeAll_error (fs : FS) (work : list (string * string)) :
  snd (removeAll undeletable fs work) <> Some ErrSelfPurging.
Proof.
  revert fs; induction work as [|[dir file] work IH]; intros fs; simpl.
  - discriminate.
  - destruct (removeFile undeletable fs dir file); simpl;
      [apply IH | discriminate].
Qed.

(** The body between the compare-and-swap and the deferred reset. *)
Lemma Do_entered (s : filenameStrategy) (fs : FS) (args : Args) :
  purging s = 0 ->
  purging (strategyOf (Do s fs args)) = 0
  /\ outcomeOf (Do s fs args) <> Returned (Some ErrSelfPurging).
Proof.
  intros H0. unfold Purger.Do, CompareAndSwap. rewrite H0. simpl.
  destruct args as [fa|]; simpl.
  - destruct (safeRelayLog fa) as [safe|]; simpl.
    + destruct (purgeRelayFilesBeforeFile undeletable fs (relayBaseDir fa)
                  (uuids fa) safe) as [fs' err] eqn:E.
      simpl. split; [reflexivity|].
      intros Heq. injection Heq as ->.
      pose proof (removeAll_error fs
        (collectFiles fs (relayBaseDir fa) (uuids fa) (Filename safe))) as Hn.
      unfold purgeRelayFilesBeforeFile in E. rewrite E in Hn.
      now apply Hn.
    + split; [reflexivity | discriminate].
  - split; [reflexivity | discriminate].
Qed.

Lemma Do_busy (s : filenameStrategy) (fs : FS) (args : Args) :
  purging s <> 0 ->
  Do s fs args = (s, fs, Returned (Some ErrSelfPurging)).
Proof.
  intros Hne. unfold Purger.Do, CompareAndSwap.
  destruct (Z.eqb_spec (purging s) 0) as [E|E]; [contradiction|].
  reflexivity.
Qed.

(** C10: a call that returns by success, by rejecting the arguments or by
    a removal error (any way but [ErrSelfPurging]) leaves the flag at 0:
    [Purging] is false and the next call is not rejected. *)
Theorem Do_resets_flag (s : filenameStrategy) (fs : FS) (args : Args)
        (Hpath : outcomeOf (Do s fs args) <> Returned (Some ErrSelfPurging)) :
  let s' := strategyOf (Do s fs args) in
  purging s' = 0
  /\ Purging s' = false
  /\ forall fs2 args2,
       outcomeOf (Do s' fs2 args2) <> Returned (Some ErrSelfPurging).
Proof.
  intros s'.
  assert (H0 : purging s = 0).
  { destruct (Z.eq_dec (purging s) 0) as [E|E]; [exact E|].
    exfalso. apply Hpath. now rewrite (Do_busy s fs args E). }
  assert (Hs' : purging s' = 0) by (apply (Do_entered s fs args H0)).
  split; [exact Hs'|]. split.
  - unfold Purging, Get. now rewrite Hs'.
  - intros fs2 args2. apply (Do_entered s' fs2 args2 Hs').
Qed.

(** Calls made one after the other on a fresh strategy are never
    rejected. *)
Lemma DoAll_never_rejected (calls : list Args) :
  forall (s : filenameStrategy) (fs : FS),
    purging s = 0 ->
    purging (fst (fst (DoAll s fs calls))) = 0
    /\ ~ In (Returned (Some ErrSelfPurging)) (snd (DoAll s fs calls)).
Proof.
  induction calls as [|a calls IH]; intros s fs H0; simpl.
  - split; [exact H0 | intros []].
  - destruct (Do_entered s fs a H0) as [Hs1 Hout].
    destruct (Do s fs a) as [[s1 fs1] out] eqn:E. simpl in Hs1, Hout.
    destruct (IH s1 fs1 Hs1) as [Hs2 Hnot].
    destruct (DoAll s1 fs1 calls) as [[s2 fs2] outs]. simpl in *.
    split; [exact Hs2|]. intros [Heq|Hin]; [now apply Hout | now apply Hnot].
Qed.

(** ** Concurrent calls *)

Variable argsOf : nat -> Args.

Local Abbreviation stepThread := (Purger.stepThread undeletable argsOf).
Local Abbreviation exec := (Purger.exec undeletable argsOf).

Lemma setPC_same (pcs : nat -> PC) (k : nat) (pc : PC) :
  setPC pcs k pc k = pc.
Proof. unfold setPC. now rewrite Nat.eqb_refl. Qed.

Lemma setPC_other (pcs : nat -> PC) (k i : nat) (pc : PC) :
  i <> k -> setPC pcs k pc i = pcs i.
Proof.
  intros Hne. unfold setPC.
  destruct (Nat.eqb_spec i k); [contradiction | reflexivity].
Qed.

Lemma inPurge_admitted (pc : PC) : inPurge pc = true -> admitted pc = true.
Proof. destruct pc; simpl; congruence. Qed.

Lemma rejected_not_inPurge (pc : PC) :
  rejected pc = true -> inPurge pc = false.
Proof. destruct pc; simpl; congruence. Qed.

Lemma rejected_not_admitted (pc : PC) :
  rejected pc = true -> admitted pc = false.
Proof. destruct pc; simpl; try congruence. now intros ->. Qed.

Ltac split_pc i k :=
  destruct (Nat.eq_dec i k) as [->|?];
  [rewrite ?setPC_same in * | rewrite ?setPC_other in * by assumption].

(** A step that keeps the stepping call inside its purge and leaves the
    flag and the other calls' removals alone. *)
Lemma singleFlight_stay (w : World) (k : nat) (pc' : PC)
      (d' : FS) (r' : list (nat * (string * string))) :
  singleFlight w ->
  inPurge (pcs w k) = true ->
  inPurge pc' = true ->
  (forall out, pc' = Deferred out -> rejected (Done out) = false) ->
  (forall i, i <> k ->
     map snd (filter (fun e => Nat.eqb (fst e) i) r') = removedBy w i) ->
  singleFlight (mkWorld (strategy w) d' (setPC (pcs w) k pc') r').
Proof.
  intros [Hf Hi Hb Ho Hd Hc Hr] Hk Hpc' Hdef Hrem.
  constructor; simpl.
  - exact Hf.
  - intros H0 i. specialize (Hi H0 k). congruence.
  - intros _. exists k. now rewrite setPC_same.
  - intros i j Hin Hjn.
    assert (Hi' : inPurge (pcs w i) = true)
      by (split_pc i k; assumption).
    assert (Hj' : inPurge (pcs w j) = true)
      by (split_pc j k; assumption).
    now apply Ho.
  - intros i out Hpc. split_pc i k; [now apply Hdef | now apply (Hd i)].
  - intros i Hadm. split_pc i k.
    + apply inPurge_admitted in Hpc'. congruence.
    + unfold removedBy; simpl. rewrite Hrem by assumption. now apply Hc.
  - intros i Hrej. split_pc i k.
    + apply rejected_not_inPurge in Hrej. congruence.
    + destruct (Hr i Hrej) as [j [Hji Hadm]]. exists j.
      split; [exact Hji|]. split_pc j k;
        [now apply inPurge_admitted | exact Hadm].
Qed.

Lemma singleFlight_init (fs : FS) : singleFlight (initWorld fs).
Proof.
  constructor; simpl; try discriminate; auto.
Qed.

Lemma singleFlight_step (w : World) (k : nat) :
  singleFlight w -> singleFlight (stepThread w k).
Proof.
  intros Hw. pose proof Hw as [Hf Hi Hb Ho Hd Hc Hr].
  unfold Purger.stepThread. destruct (pcs w k) as [| |work|out|out] eqn:Epc.
  - (* the compare-and-swap *)
    unfold CompareAndSwap.
    destruct (Z.eqb_spec (purging (strategy w)) 0) as [E0|E0].
    + constructor; simpl.
      * now right.
      * discriminate.
      * intros _. exists k. now rewrite setPC_same.
      * intros i j Hin Hjn.
        split_pc i k; split_pc j k; try reflexivity;
          try (rewrite (Hi E0) in Hin; discriminate);
          try (rewrite (Hi E0) in Hjn; discriminate).
      * intros i out Hpc. split_pc i k; [discriminate | now apply (Hd i)].
      * intros i Hadm. split_pc i k; [discriminate|].
        unfold removedBy; simpl. now apply Hc.
      * intros i Hrej. split_pc i k; [discriminate|].
        destruct (Hr i Hrej) as [j [Hji Hadm]]. exists j.
        split; [exact Hji|]. split_pc j k; [reflexivity | exact Hadm].
    + assert (E1 : purging (strategy w) = 1) by (destruct Hf; congruence).
      destruct (Hb E1) as [p Hp].
      assert (Hpk : p <> k) by (intros ->; rewrite Epc in Hp; discriminate).
      constructor; simpl.
      * exact Hf.
      * intros H0. congruence.
      * intros _. exists p. now rewrite setPC_other.
      * intros i j Hin Hjn.
        split_pc i k; split_pc j k; try discriminate. now apply Ho.
      * intros i out Hpc. split_pc i k; [discriminate | now apply (Hd i)].
      * intros i Hadm. unfold removedBy; simpl. split_pc i k.
        -- apply Hc. now rewrite Epc.
        -- now apply Hc.
      * intros i Hrej. split_pc i k.
        -- exists p. split; [exact Hpk|].
           rewrite setPC_other by exact Hpk. now apply inPurge_admitted.
        -- destruct (Hr i Hrej) as [j [Hji Hadm]]. exists j.
           split; [exact Hji|]. split_pc j k; [|exact Hadm].
           rewrite Epc in Hadm. discriminate.
  - (* inspecting the arguments *)
    apply singleFlight_stay; try assumption.
    + now rewrite Epc.
    + destruct (argsOf k) as [fa|]; [destruct (safeRelayLog fa)|];
        reflexivity.
    + intros out.
      destruct (argsOf k) as [fa|]; [destruct (safeRelayLog fa)|];
        intros Heq; inversion Heq; reflexivity.
    + reflexivity.
  - (* removing files *)
    destruct work as [|[dir file] work'].
    + apply singleFlight_stay; try assumption; try reflexivity.
      * now rewrite Epc.
      * intros out Heq; inversion Heq; reflexivity.
    + destruct (removeFile undeletable (disk w) dir file) as [fs'|].
      * apply singleFlight_stay; try assumption; try reflexivity.
        -- now rewrite Epc.
        -- discriminate.
        -- intros i Hik. simpl.
           destruct (Nat.eqb_spec k i) as [Heq|_]; [now subst|reflexivity].
      * apply singleFlight_stay; try assumption; try reflexivity.
        -- now rewrite Epc.
        -- intros out Heq; inversion Heq; reflexivity.
  - (* the deferred reset *)
    assert (Hk : inPurge (pcs w k) = true) by now rewrite Epc.
    assert (Hout : rejected (Done out) = false) by now apply (Hd k).
    constructor; simpl.
    + now left.
    + intros _ i. split_pc i k; [reflexivity|].
      destruct (inPurge (pcs w i)) eqn:Ei; [|reflexivity].
      exfalso.
      match goal with Hn : i <> k |- _ => apply Hn end. now apply Ho.
    + discriminate.
    + intros i j Hin Hjn.
      split_pc i k; split_pc j k; try discriminate. now apply Ho.
    + intros i o Hpc. split_pc i k; [discriminate | now apply (Hd i)].
    + intros i Hadm. split_pc i k.
      * simpl in Hadm. simpl in Hout. rewrite Hout in Hadm. discriminate.
      * unfold removedBy; simpl. now apply Hc.
    + intros i Hrej. split_pc i k; [congruence|].
      destruct (Hr i Hrej) as [j [Hji Hadm]]. exists j.
      split; [exact Hji|]. split_pc j k; [|exact Hadm].
      simpl. simpl in Hout. now rewrite Hout.
  - exact Hw.
Qed.

Lemma singleFlight_exec (schedule : list nat) :
  forall w, singleFlight w -> singleFlight (exec w schedule).
Proof.
  induction schedule as [|k schedule IH]; intros w Hw; simpl.
  - exact Hw.
  - apply IH. now apply singleFlight_step.
Qed.

(** *** A call scheduled alone is [Do] *)

Lemma Do_paths (s : filenameStrategy) (fs : FS) (args : Args) :
  purging s = 0 ->
  outcomeOf (Do s fs args) = Returned None
  \/ outcomeOf (Do s fs args) = Returned (Some ErrNotValid)
  \/ (exists dir file,
        outcomeOf (Do s fs args) = Returned (Some (ErrTrace dir file)))
  \/ outcomeOf (Do s fs args) = Panicked.
Proof.
  intros H0. unfold Purger.Do, CompareAndSwap. rewrite H0. simpl.
  destruct args as [fa|]; simpl; [|now right; left].
  destruct (safeRelayLog fa) as [safe|]; simpl; [|now right; right; right].
  unfold purgeRelayFilesBeforeFile.
  generalize (collectFiles fs (relayBaseDir fa) (uuids fa) (Filename safe)).
  intros work. revert fs.
  induction work as [|[dir file] work IH]; intros fs; simpl.
  - now left.
  - destruct (removeFile undeletable fs dir file) as [fs'|]; simpl.
    + apply IH.
    + right; right; left. now exists dir, file.
Qed.

Lemma exec_repeat_S (w : World) (i n : nat) :
  exec w (repeat i (S n)) = exec (stepThread w i) (repeat i n).
Proof. reflexivity. Qed.

Lemma exec_repeat_0 (w : World) (i : nat) : exec w (repeat i 0) = w.
Proof. reflexivity. Qed.

(** One step of a call, by the line it is at. *)
Lemma step_cas_admitted (w : World) (i : nat) :
  pcs w i = AtCAS -> purging (strategy w) = 0 ->
  pcs (stepThread w i) i = Entered
  /\ disk (stepThread w i) = disk w
  /\ strategy (stepThread w i) = {| purging := 1 |}.
Proof.
  intros Hpc E0. unfold Purger.stepThread, CompareAndSwap.
  rewrite Hpc, E0. simpl. rewrite setPC_same. auto.
Qed.

Lemma step_entered (w : World) (i : nat) :
  pcs w i = Entered ->
  pcs (stepThread w i) i
  = match argsOf i with
    | ArgsOther => Deferred (Returned (Some ErrNotValid))
    | ArgsFilename fa =>
        match safeRelayLog fa with
        | None => Deferred Panicked
        | Some safe =>
            Deleting (collectFiles (disk w) (relayBaseDir fa)
                                   (uuids fa) (Filename safe))
        end
    end
  /\ disk (stepThread w i) = disk w
  /\ strategy (stepThread w i) = strategy w.
Proof.
  intros Hpc. unfold Purger.stepThread. rewrite Hpc. simpl.
  rewrite setPC_same. auto.
Qed.

Lemma step_deleting_done (w : World) (i : nat) :
  pcs w i = Deleting [] ->
  pcs (stepThread w i) i = Deferred (Returned None)
  /\ disk (stepThread w i) = disk w
  /\ strategy (stepThread w i) = strategy w.
Proof.
  intros Hpc. unfold Purger.stepThread. rewrite Hpc. simpl.
  rewrite setPC_same. auto.
Qed.

Lemma step_deleting_removed (w : World) (i : nat) (dir file : string)
      (work : list (string * string)) (fs' : FS) :
  pcs w i = Deleting ((dir, file) :: work) ->
  removeFile undeletable (disk w) dir file = Some fs' ->
  pcs (stepThread w i) i = Deleting work
  /\ disk (stepThread w i) = fs'
  /\ strategy (stepThread w i) = strategy w.
Proof.
  intros Hpc E. unfold Purger.stepThread. rewrite Hpc, E. simpl.
  rewrite setPC_same. auto.
Qed.

Lemma step_deleting_failed (w : World) (i : nat) (dir file : string)
      (work : list (string * string)) :
  pcs w i = Deleting ((dir, file) :: work) ->
  removeFile undeletable (disk w) dir file = None ->
  pcs (stepThread w i) i = Deferred (Returned (Some (ErrTrace dir file)))
  /\ disk (stepThread w i) = disk w
  /\ strategy (stepThread w i) = strategy w.
Proof.
  intros Hpc E. unfold Purger.stepThread. rewrite Hpc, E. simpl.
  rewrite setPC_same. auto.
Qed.

Lemma step_deferred (w : World) (i : nat) (out : Outcome) :
  pcs w i = Deferred out ->
  pcs (stepThread w i) i = Done out
  /\ disk (stepThread w i) = disk w
  /\ strategy (stepThread w i) = Set_ (strategy w) 0.
Proof.
  intros Hpc. unfold Purger.stepThread. rewrite Hpc. simpl.
  rewrite setPC_same. auto.
Qed.

(** The removals of a call left alone are those of [removeAll]. *)
Lemma deleting_alone (i : nat) (work : list (string * string)) :
  forall w,
    pcs w i = Deleting work ->
    exists n,
      pcs (exec w (repeat i n)) i
      = Done (Returned (snd (removeAll undeletable (disk w) work)))
      /\ disk (exec w (repeat i n))
         = fst (removeAll undeletable (disk w) work)
      /\ strategy (exec w (repeat i n)) = Set_ (strategy w) 0.
Proof.
  induction work as [|[dir file] work IH]; intros w Hpc.
  - destruct (step_deleting_done w i Hpc) as (H1 & Hd1 & Hs1).
    destruct (step_deferred _ i _ H1) as (H2 & Hd2 & Hs2).
    exists 2%nat. rewrite !exec_repeat_S, exec_repeat_0.
    rewrite H2, Hd2, Hs2, Hd1, Hs1. auto.
  - simpl removeAll.
    destruct (removeFile undeletable (disk w) dir file) as [fs'|] eqn:E.
    + destruct (step_deleting_removed w i dir file work fs' Hpc E)
        as (H1 & Hd1 & Hs1).
      destruct (IH _ H1) as [n (Hn & Hdn & Hsn)].
      exists (S n). rewrite exec_repeat_S.
      rewrite Hn, Hdn, Hsn, Hd1, Hs1. auto.
    + destruct (step_deleting_failed w i dir file work Hpc E)
        as (H1 & Hd1 & Hs1).
      destruct (step_deferred _ i _ H1) as (H2 & Hd2 & Hs2).
      exists 2%nat. rewrite !exec_repeat_S, exec_repeat_0.
      rewrite H2, Hd2, Hs2, Hd1, Hs1. auto.
Qed.

(** Scheduled alone, a call ends where [Do] ends. *)
Lemma Do_alone (i : nat) (w : World) :
  pcs w i = AtCAS ->
  exists n,
    pcs (exec w (repeat i n)) i
    = Done (outcomeOf (Do (strategy w) (disk w) (argsOf i)))
    /\ disk (exec w (repeat i n))
       = snd (fst (Do (strategy w) (disk w) (argsOf i)))
    /\ strategy (exec w (repeat i n))
       = strategyOf (Do (strategy w) (disk w) (argsOf i)).
Proof.
  intros Hpc.
  destruct (Z.eqb_spec (purging (strategy w)) 0) as [E0|E0].
  - (* admitted *)
    destruct (step_cas_admitted w i Hpc E0) as (H1 & Hd1 & Hs1).
    destruct (step_entered _ i H1) as (H2 & Hd2 & Hs2).
    unfold Purger.Do, CompareAndSwap. rewrite E0. simpl.
    destruct (argsOf i) as [fa|].
    + destruct (safeRelayLog fa) as [safe|].
      * rewrite Hd1 in H2.
        destruct (deleting_alone i _ _ H2) as [n (Hn & Hdn & Hsn)].
        exists (S (S n)). rewrite !exec_repeat_S.
        rewrite Hn, Hdn, Hsn, Hd2, Hd1.
        unfold purgeRelayFilesBeforeFile.
        destruct (removeAll undeletable (disk w)
                    (collectFiles (disk w) (relayBaseDir fa) (uuids fa)
                                  (Filename safe))) as [fs' err].
        auto.
      * destruct (step_deferred _ i _ H2) as (H3 & Hd3 & Hs3).
        exists 3%nat. rewrite !exec_repeat_S, exec_repeat_0.
        rewrite H3, Hd3, Hs3, Hd2, Hd1. auto.
    + destruct (step_deferred _ i _ H2) as (H3 & Hd3 & Hs3).
      exists 3%nat. rewrite !exec_repeat_S, exec_repeat_0.
      rewrite H3, Hd3, Hs3, Hd2, Hd1. auto.
  - (* rejected *)
    exists 1%nat. rewrite exec_repeat_S, exec_repeat_0.
    rewrite (Do_busy _ _ _ E0).
    unfold Purger.stepThread, CompareAndSwap. rewrite Hpc.
    destruct (Z.eqb_spec (purging (strategy w)) 0); [contradiction|].
    simpl. rewrite setPC_same. auto.
Qed.

(** C9: whatever the schedule of the concurrent calls, no two of them
    are purging at once; a call that finds the flag set ends with
    [ErrSelfPurging], leaves flag and disk as they are and has removed
    nothing, while another call, the one purging, was admitted. *)
Theorem Do_single_flight (fs : FS) (schedule : list nat) (i j : nat) :
  let w := exec (initWorld fs) schedule in
  (inPurge (pcs w i) = true -> inPurge (pcs w j) = true -> i = j)
  /\ (rejected (pcs w i) = true ->
      removedBy w i = []
      /\ exists k, k <> i /\ admitted (pcs w k) = true)
  /\ (pcs w i = AtCAS -> purging (strategy w) <> 0 ->
      let w' := stepThread w i in
      pcs w' i = Done (Returned (Some ErrSelfPurging))
      /\ disk w' = disk w
      /\ removals w' = removals w
      /\ strategy w' = strategy w
      /\ exists k, k <> i /\ inPurge (pcs w' k) = true).
Proof.
  intros w.
  assert (Hw : singleFlight w)
    by (apply singleFlight_exec, singleFlight_init).
  split; [|split].
  - apply (sf_one _ Hw).
  - intros Hrej. split.
    + apply (sf_clean _ Hw). now apply rejected_not_admitted.
    + now apply (sf_other _ Hw).
  - intros Hpc Hne w'.
    assert (E1 : purging (strategy w) = 1)
      by (destruct (sf_flag _ Hw); congruence).
    destruct (sf_busy _ Hw E1) as [p Hp].
    assert (Hpi : p <> i) by (intros ->; rewrite Hpc in Hp; discriminate).
    unfold w', Purger.stepThread, CompareAndSwap. rewrite Hpc.
    destruct (Z.eqb_spec (purging (strategy w)) 0) as [E0|_];
      [contradiction|]. simpl.
    rewrite setPC_same. repeat split.
    exists p. split; [exact Hpi|]. now rewrite setPC_other.
Qed.

End StrategyFacts.

(** ** Scenario S6 and two calls racing *)

Example purge_respects_active :
  Purger.Do noneUndeletable Purger.newFilenameStrategy relayDisk
            (Purger.ArgsFilename preparedS6)
  = (Purger.newFilenameStrategy,
     [ (Purger.dirPath "/relay" uuid1,
        ["mysql-bin.000003"; "mysql-bin.000004"; "mysql-bin.000005"]) ],
     Purger.Returned None).
Proof. vm_compute. reflexivity. Qed.

Example purge_paths :
  Purger.DoAll (fun _ f => String.eqb f "mysql-bin.000002")
               Purger.newFilenameStrategy relayDisk
               [Purger.ArgsOther; Purger.ArgsFilename requestS6;
                Purger.ArgsFilename preparedS6]
  = (Purger.newFilenameStrategy,
     [ (Purger.dirPath "/relay" uuid1,
        ["mysql-bin.000002"; "mysql-bin.000003";
         "mysql-bin.000004"; "mysql-bin.000005"]) ],
     [Purger.Returned (Some Purger.ErrNotValid);
      Purger.Panicked;
      Purger.Returned (Some (Purger.ErrTrace
                               (Purger.dirPath "/relay" uuid1)
                               "mysql-bin.000002"))]).
Proof. vm_compute. reflexivity. Qed.

Lemma Do_resets_flag_witness :
  Purger.Purging
    (Purger.strategyOf (Purger.Do noneUndeletable Purger.newFilenameStrategy
                           relayDisk (Purger.ArgsFilename preparedS6)))
  = false.
Proof.
  apply (Do_resets_flag noneUndeletable Purger.newFilenameStrategy relayDisk
                        (Purger.ArgsFilename preparedS6)).
  vm_compute. discriminate.
Defined.

Example race_outcome :
  Purger.pcs raceWorld 0%nat = Purger.Done (Purger.Returned None)
  /\ Purger.pcs raceWorld 1%nat
     = Purger.Done (Purger.Returned (Some Purger.ErrSelfPurging))
  /\ Purger.removedBy raceWorld 0%nat
     = [(Purger.dirPath "/relay" uuid1, "mysql-bin.000002");
        (Purger.dirPath "/relay" uuid1, "mysql-bin.000001")]
  /\ Purger.Purging (Purger.strategy raceWorld) = false.
Proof. vm_compute. repeat split. Qed.

Lemma Do_single_flight_witness :
  Purger.rejected (Purger.pcs raceWorld 1%nat) = true
  /\ Purger.removedBy raceWorld 1%nat = [].
Proof.
  assert (Hrej : Purger.rejected (Purger.pcs raceWorld 1%nat) = true)
    by (vm_compute; reflexivity).
  split; [exact Hrej|].
  apply (proj1 (proj2 (Do_single_flight noneUndeletable
                         (fun _ => Purger.ArgsFilename preparedS6)
                         relayDisk raceSchedule 1%nat 0%nat))).
  exact Hrej.
Defined.

(* ================================================================== *)
(** * Properties of GTID sets *)
(* ================================================================== *)

Section GtidFacts.

Import Gtid.

Lemma zrange_In (a b n : Z) : In n (zrange a b) <-> a <= n <= b.
Proof.
  unfold zrange. rewrite in_map_iff. split.
  - intros [k [<- Hk]]. apply in_seq in Hk. lia.
  - intros H. exists (Z.to_nat (n - a)). split; [lia|].
    apply in_seq. lia.
Qed.

Lemma inIntervals_spec (n : Z) (ivs : list Interval) :
  inIntervals n ivs = true
  <-> exists a b, In (a, b) ivs /\ a <= n <= b.
Proof.
  unfold inIntervals. rewrite existsb_exists. split.
  - intros [[a b] [Hin H]]. simpl in H.
    apply andb_true_iff in H. destruct H as [Ha Hb].
    exists a, b. split; [exact Hin | lia].
  - intros [a [b [Hin H]]]. exists (a, b). split; [exact Hin|].
    simpl. apply andb_true_iff. split; lia.
Qed.

Lemma member_spec (gs : GTIDSet) (sid : string) (n : Z) :
  member gs sid n = true
  <-> exists ivs a b, In (sid, ivs) gs /\ In (a, b) ivs /\ a <= n <= b.
Proof.
  unfold member. rewrite existsb_exists. split.
  - intros [[sid' ivs] [Hin H]]. simpl in H.
    apply andb_true_iff in H. destruct H as [Hs Hi].
    apply String.eqb_eq in Hs. subst sid'.
    apply inIntervals_spec in Hi. destruct Hi as [a [b [Hiv Hn]]].
    exists ivs, a, b. auto.
  - intros [ivs [a [b [Hin [Hiv Hn]]]]]. exists (sid, ivs).
    split; [exact Hin|]. simpl. apply andb_true_iff. split.
    + apply String.eqb_refl.
    + apply inIntervals_spec. exists a, b. auto.
Qed.

Lemma covers_spec (gs : GTIDSet) (sid : string) (a b : Z) :
  covers gs sid a b = true
  <-> forall n, a <= n <= b -> member gs sid n = true.
Proof.
  unfold covers. rewrite forallb_forall. split.
  - intros H n Hn. apply H. now apply zrange_In.
  - intros H n Hn. apply H. now apply zrange_In.
Qed.

(** [Contain] decides the superset relation on the transactions. *)
Lemma Contain_spec (super sub : GTIDSet) :
  Contain super sub = true
  <-> forall sid n, member sub sid n = true -> member super sid n = true.
Proof.
  unfold Contain. rewrite forallb_forall. split.
  - intros H sid n Hm.
    apply member_spec in Hm. destruct Hm as [ivs [a [b [Hin [Hiv Hn]]]]].
    specialize (H (sid, ivs) Hin). simpl in H.
    rewrite forallb_forall in H. specialize (H (a, b) Hiv). simpl in H.
    rewrite covers_spec in H. now apply H.
  - intros H [sid ivs] Hin. simpl. rewrite forallb_forall.
    intros [a b] Hiv. simpl. apply covers_spec. intros n Hn.
    apply H. apply member_spec. exists ivs, a, b. auto.
Qed.

Lemma Contain_false (super sub : GTIDSet) :
  Contain super sub = false
  <-> ~ (forall sid n, member sub sid n = true -> member super sid n = true).
Proof.
  rewrite <- Contain_spec. destruct (Contain super sub); split; intros H.
  - discriminate.
  - exfalso. now apply H.
  - intros Hc. discriminate.
  - reflexivity.
Qed.

Import Relay.

(** Transactions of a set extended with the purged one. *)
Lemma AddGSetWithPurged_member (p gs : GTIDSet) (sid : string) (n : Z) :
  isEmpty p = false ->
  1 <= n ->
  (member (AddGSetWithPurged (Some p) gs) sid n = true
   <-> exists ivs a b,
         In (sid, ivs) gs /\ In (a, b) ivs /\ n <= b
         /\ (a <= n \/ covers p sid 1 (a - 1) = true)).
Proof.
  intros Hp Hn. unfold AddGSetWithPurged. rewrite Hp.
  rewrite member_spec. split.
  - intros [ivs' [a' [b' [Hin [Hiv Hr]]]]].
    apply in_map_iff in Hin. destruct Hin as [[sid0 ivs] [Heq Hin]].
    simpl in Heq. injection Heq as -> <-.
    apply in_map_iff in Hiv. destruct Hiv as [[a b] [Heq Hiv]].
    exists ivs, a, b. split; [exact Hin|]. split; [exact Hiv|].
    unfold extendInterval in Heq. simpl in Heq.
    destruct (covers p sid 1 (a - 1)) eqn:Ec;
      injection Heq as <- <-; (split; [lia|]); [now right | left; lia].
  - intros [ivs [a [b [Hin [Hiv [Hb Hor]]]]]].
    exists (map (extendInterval p sid) ivs).
    destruct (covers p sid 1 (a - 1)) eqn:Ec.
    + exists 1, b. split; [|split; [|lia]].
      * apply in_map_iff. exists (sid, ivs). auto.
      * apply in_map_iff. exists (a, b). split; [|exact Hiv].
        unfold extendInterval. simpl. now rewrite Ec.
    + exists a, b. split; [|split].
      * apply in_map_iff. exists (sid, ivs). auto.
      * apply in_map_iff. exists (a, b). split; [|exact Hiv].
        unfold extendInterval. simpl. now rewrite Ec.
      * destruct Hor as [Ha|Hc]; [lia | discriminate].
Qed.

Lemma AddGSetWithPurged_origins (purged : option GTIDSet) (gs : GTIDSet) :
  map fst (AddGSetWithPurged purged gs) = map fst gs.
Proof.
  unfold AddGSetWithPurged. destruct purged as [p|]; [|reflexivity].
  destruct (isEmpty p); [reflexivity|].
  rewrite map_map. reflexivity.
Qed.

End GtidFacts.

(* ================================================================== *)
(** * Properties of the recovery of the latest relay file *)
(* ================================================================== *)

Section RecoveryFacts.

Import Gtid Relay.

Variable parse : list Byte.byte -> option (BinlogEvent * nat).

Lemma last_cons_default (A : Type) (x d : A) (l : list A) :
  last (x :: l) d = last l x.
Proof.
  revert x d; induction l as [|y l IH]; intros x d; [reflexivity|].
  change (last (x :: y :: l) d) with (last (y :: l) d).
  now rewrite (IH y d), (IH y x).
Qed.

(** Fuel beyond the length of the data changes nothing: the scan is total. *)
Lemma parseAll_fuel (fuel1 : nat) :
  forall (fuel2 : nat) (data : list Byte.byte) (off : nat),
    (List.length data <= fuel1)%nat ->
    (List.length data <= fuel2)%nat ->
    parseAll parse fuel1 data off = parseAll parse fuel2 data off.
Proof.
  induction fuel1 as [|fuel1 IH]; intros fuel2 data off H1 H2.
  - destruct data; [|simpl in H1; lia].
    destruct fuel2; simpl; [reflexivity|].
    destruct (parse []) as [[ev size]|]; [|reflexivity].
    destruct size; reflexivity.
  - destruct fuel2 as [|fuel2].
    + destruct data; [|simpl in H2; lia]. simpl.
      destruct (parse []) as [[ev size]|]; [|reflexivity].
      destruct size; reflexivity.
    + simpl. destruct (parse data) as [[ev size]|]; [|reflexivity].
      destruct ((0 <? size)%nat && (size <=? List.length data)%nat) eqn:G;
        [|reflexivity].
      apply andb_true_iff in G. destruct G as [G1 G2].
      apply Nat.ltb_lt in G1. apply Nat.leb_le in G2.
      f_equal. apply IH; rewrite length_skipn; lia.
Qed.

Lemma completeEvents_fuel (data : list Byte.byte) (extra : nat) :
  parseAll parse (List.length data + extra) data 0 = completeEvents parse data.
Proof. unfold completeEvents. apply parseAll_fuel; lia. Qed.

(** The events found are complete events laid end to end. *)
Lemma parseAll_chain (full : list Byte.byte) (fuel : nat) :
  forall (data : list Byte.byte) (off : nat),
    skipn off full = data ->
    eventChain parse full off (map snd (parseAll parse fuel data off)).
Proof.
  induction fuel as [|fuel IH]; intros data off Hd; simpl; [exact I|].
  destruct (parse data) as [[ev size]|] eqn:Ep; [|exact I].
  destruct ((0 <? size)%nat && (size <=? List.length data)%nat) eqn:G;
    [|exact I].
  apply andb_true_iff in G. destruct G as [G1 G2].
  apply Nat.ltb_lt in G1. apply Nat.leb_le in G2.
  simpl. split.
  - exists ev, size. rewrite Hd. repeat split; try assumption.
    rewrite <- Hd, length_skipn in G2. lia.
  - apply IH. rewrite <- Hd, skipn_skipn. f_equal. lia.
Qed.

(** No complete event starts where the last one ends. *)
Lemma parseAll_stops (full : list Byte.byte) (fuel : nat) :
  forall (data : list Byte.byte) (off : nat),
    skipn off full = data ->
    (List.length data <= fuel)%nat ->
    eventAt parse full (last (map snd (parseAll parse fuel data off)) off)
    = false.
Proof.
  induction fuel as [|fuel IH]; intros data off Hd Hlen.
  - simpl. unfold eventAt. rewrite Hd.
    destruct (parse data) as [[ev size]|]; [|reflexivity].
    rewrite <- Hd, length_skipn in Hlen.
    destruct (Nat.ltb_spec 0 size); [|reflexivity].
    destruct (Nat.leb_spec size (List.length full - off)); [lia|reflexivity].
  - simpl. destruct (parse data) as [[ev size]|] eqn:Ep.
    + destruct ((0 <? size)%nat && (size <=? List.length data)%nat) eqn:G.
      * apply andb_true_iff in G. destruct G as [G1 G2].
        apply Nat.ltb_lt in G1. apply Nat.leb_le in G2.
        simpl map. rewrite last_cons_default. apply IH.
        -- rewrite <- Hd, skipn_skipn. f_equal. lia.
        -- rewrite length_skipn. lia.
      * simpl. unfold eventAt. rewrite Hd, Ep.
        rewrite <- Hd, length_skipn in G. exact G.
    + simpl. unfold eventAt. now rewrite Hd, Ep.
Qed.

Lemma parseAll_last_le (full : list Byte.byte) (fuel : nat) :
  forall (data : list Byte.byte) (off : nat),
    skipn off full = data ->
    (off <= List.length full)%nat ->
    (last (map snd (parseAll parse fuel data off)) off
     <= List.length full)%nat.
Proof.
  induction fuel as [|fuel IH]; intros data off Hd Hoff; simpl;
    [exact Hoff|].
  destruct (parse data) as [[ev size]|] eqn:Ep; [|exact Hoff].
  destruct ((0 <? size)%nat && (size <=? List.length data)%nat) eqn:G;
    [|exact Hoff].
  apply andb_true_iff in G. destruct G as [G1 G2].
  apply Nat.ltb_lt in G1. apply Nat.leb_le in G2.
  simpl map. rewrite last_cons_default.
  rewrite <- Hd, length_skipn in G2. apply IH.
  - rewrite <- Hd, skipn_skipn. f_equal. lia.
  - lia.
Qed.

Lemma lastGoodPos_le (data : list Byte.byte) :
  (lastGoodPos (completeEvents parse data) <= List.length data)%nat.
Proof.
  unfold lastGoodPos, completeEvents.
  apply parseAll_last_le; [reflexivity | lia].
Qed.

Lemma readFile_writeFile (fs : list (string * list Byte.byte))
      (path : string) (old new : list Byte.byte) :
  readFile fs path = Some old ->
  readFile (writeFile fs path new) path = Some new.
Proof.
  unfold readFile, writeFile.
  induction fs as [|[p d] fs IH]; simpl; [discriminate|].
  destruct (String.eqb p path) eqn:E; simpl; rewrite E.
  - reflexivity.
  - exact IH.
Qed.

(** What recovery does on a file that exists and has its header. *)
Lemma tryRecoverLatestFile_runs (r : RelayState) (data : list Byte.byte)
      (previous : GTIDSet) (rest : list (BinlogEvent * nat)) :
  Name (pos (meta r)) <> "" ->
  readFile (files r) (relayPath (meta r) (Name (pos (meta r)))) = Some data ->
  fileHeader (completeEvents parse data) = Some (previous, rest) ->
  let path := relayPath (meta r) (Name (pos (meta r))) in
  let good := lastGoodPos (completeEvents parse data) in
  tryRecoverLatestFile parse r
  = inl {| meta :=
             Flush (Save (meta r)
                         {| Name := Name (pos (meta r));
                            Pos := Z.of_nat good |}
                         (reconcile (gset (meta r))
                                    (computeGTIDs previous rest)
                                    (gtidPurged r)));
           files :=
             if (good <? List.length data)%nat
             then writeFile (files r) path (firstn good data)
             else files r;
           gtidPurged := gtidPurged r |}.
Proof.
  intros Hname Hfile Hhead path good.
  unfold tryRecoverLatestFile.
  destruct (String.eqb_spec (Name (pos (meta r))) "") as [E|_];
    [contradiction|].
  rewrite Hfile, Hhead. reflexivity.
Qed.


(** C2: on a file with its header, recovery leaves the file cut at the end
    offset of the last complete event: the events found lie end to end
    from the start of the file up to that offset, no complete event
    starts there, and the meta position is that offset in the same file,
    flushed. *)
Theorem recover_truncates
        (r : RelayState) (data : list Byte.byte)
        (previous : GTIDSet) (rest : list (BinlogEvent * nat))
        (Hname : Name (pos (meta r)) <> "")
        (Hfile : readFile (files r)
                          (relayPath (meta r) (Name (pos (meta r))))
                 = Some data)
        (Hhead : fileHeader (completeEvents parse data)
                 = Some (previous, rest)) :
  let path := relayPath (meta r) (Name (pos (meta r))) in
  let ends := map snd (completeEvents parse data) in
  let good := last ends 0%nat in
  exists r' data',
    tryRecoverLatestFile parse r = inl r'
    /\ readFile (files r') path = Some data'
    /\ data' = firstn good data
    /\ List.length data' = good
    /\ eventChain parse data 0 ends
    /\ eventAt parse data good = false
    /\ pos (meta r') = {| Name := Name (pos (meta r)); Pos := Z.of_nat good |}
    /\ Dirty (meta r') = false
    /\ diskPos (meta r') = pos (meta r').
Proof.
  intros path ends good.
  pose proof (lastGoodPos_le data) as Hle.
  unfold lastGoodPos in Hle. fold ends good in Hle.
  eexists. exists (firstn good data). split.
  - apply (tryRecoverLatestFile_runs r data previous rest Hname Hfile Hhead).
  - unfold lastGoodPos. fold ends good path. simpl.
    split; [|split; [reflexivity|split; [|split; [|split; [|repeat split]]]]].
    + destruct (Nat.ltb_spec good (List.length data)) as [Hlt|Hge].
      * now apply readFile_writeFile with (old := data).
      * fold path in Hfile. rewrite Hfile. f_equal.
        symmetry. apply firstn_all2. lia.
    + rewrite length_firstn. lia.
    + apply parseAll_chain. reflexivity.
    + apply parseAll_stops; [reflexivity | lia].
Qed.

End RecoveryFacts.

(** ** The recovery tests of the relay, replayed *)

(** [TestTryRecoverLatestFile], with [gtid_purged] at [406a...:1-122]. *)
Example TestTryRecoverLatestFile :
  let purged := Some purgedGTIDSet in
  (* no file specified, no need to recover *)
  Relay.tryRecoverLatestFile
    testParser
    {| Relay.meta := Relay.emptyMeta; Relay.files := [];
       Relay.gtidPurged := purged |}
  = inl {| Relay.meta := Relay.emptyMeta; Relay.files := [];
           Relay.gtidPurged := purged |}
  (* the relay log file does not exist, no need to recover *)
  /\ Relay.tryRecoverLatestFile
       testParser
       {| Relay.meta := testMeta; Relay.files := [];
          Relay.gtidPurged := purged |}
     = inl {| Relay.meta := testMeta; Relay.files := [];
              Relay.gtidPurged := purged |}
  (* all events are complete: position and GTID set move to the end *)
  /\ (let r1 := recovered (withFile purged) in
      Relay.currentUUID (Relay.meta r1) = uuid1
      /\ Relay.index (Relay.meta r1) = [uuid1]
      /\ Relay.pos (Relay.meta r1)
         = {| Relay.Name := testFilename; Relay.Pos := latestPos |}
      /\ Z.of_nat (List.length testData) = latestPos
      /\ Gtid.Equal (Relay.gset (Relay.meta r1)) recoverGTIDSet = true
      (* invalid data appended, a greater GTID set in the meta *)
      /\ (let r2 := SaveMeta (appendToFile r1 testPath invalidData)
                             startPos greaterGTIDSet in
          let r3 := recovered r2 in
          Relay.readFile (Relay.files r2) testPath
          = Some (testData ++ invalidData)
          /\ Relay.readFile (Relay.files r3) testPath = Some testData
          /\ Relay.pos (Relay.meta r3)
             = {| Relay.Name := testFilename; Relay.Pos := latestPos |}
          /\ Gtid.Equal (Relay.gset (Relay.meta r3)) recoverGTIDSet = true
          (* no relay log file need to recover *)
          /\ (let r4 := SaveMeta r3 Relay.minCheckpoint
                                 (Relay.gset (Relay.meta r3)) in
              let r5 := recovered r4 in
              Relay.pos (Relay.meta r5) = Relay.minCheckpoint
              /\ Gtid.member (Relay.gset (Relay.meta r5)) sid2 505 = true))).
Proof. vm_compute. repeat split. Qed.

(** [TestTryRecoverMeta]: [gtid_purged] is empty, nothing is extended. *)
Example TestTryRecoverMeta :
  let r0 := appendToFile (withFile (Some [])) testPath invalidData in
  let r1 := recovered r0 in
  Relay.pos (Relay.meta r1)
  = {| Relay.Name := testFilename; Relay.Pos := latestPos |}
  /\ Gtid.Equal (Relay.gset (Relay.meta r1)) recoverGTIDSetUnpurged = true
  /\ (let r2 := SaveMeta (appendToFile r1 testPath invalidData)
                         startPos previousGTIDSet in
      let r3 := recovered r2 in
      Relay.pos (Relay.meta r3)
      = {| Relay.Name := testFilename; Relay.Pos := latestPos |}
      /\ Gtid.Equal (Relay.gset (Relay.meta r3)) recoverGTIDSetUnpurged
         = true).
Proof. vm_compute. repeat split. Qed.

(** [X:123-456] becomes [X:1-456] when the purged set covers [1-122], and
    stays when it stops short. *)
Example extend_with_purged :
  Relay.AddGSetWithPurged (Some [(sid3, [(1, 122)])]) [(sid3, [(123, 456)])]
  = [(sid3, [(1, 456)])]
  /\ Relay.AddGSetWithPurged (Some [(sid3, [(1, 121)])])
                             [(sid3, [(123, 456)])]
     = [(sid3, [(123, 456)])]
  /\ Relay.AddGSetWithPurged None [(sid3, [(123, 456)])]
     = [(sid3, [(123, 456)])].
Proof. vm_compute. repeat split. Qed.


Lemma recover_truncates_witness :
  exists r' data',
    Relay.tryRecoverLatestFile testParser brokenRelay = inl r'
    /\ Relay.readFile (Relay.files r') testPath = Some data'
    /\ List.length data' = 3115%nat
    /\ Relay.Dirty (Relay.meta r') = false.
Proof.
  destruct (recover_truncates testParser brokenRelay brokenData
              previousGTIDSet testRest)
    as (r' & data' & Hrun & Hread & _ & Hlen & _ & _ & _ & Hdirty & _).
  - vm_compute. discriminate.
  - vm_compute. reflexivity.
  - vm_compute. reflexivity.
  - exists r', data'.
    split; [exact Hrun|]. split; [exact Hread|]. split; [|exact Hdirty].
    rewrite Hlen. vm_compute. reflexivity.
Defined.

(* ================================================================== *)
(** * Properties of the event pump *)
(* ================================================================== *)

Section PumpFacts.

Import Gtid Relay.

Variable Transform : BinlogEvent -> TransformResult.
Variable W : Type.
Variable WriteEvent : W -> BinlogEvent -> W * (WriteResult + Error).

Local Abbreviation handleEvent := (Relay.handleEvent Transform WriteEvent).
Local Abbreviation handleEvents := (Relay.handleEvents Transform WriteEvent).
Local Abbreviation allHandled := (Relay.allHandled Transform WriteEvent).

(** The pump goes through a prefix of events that are all handled. *)
Lemma handleEvents_prefix (evs : list BinlogEvent) :
  forall (st st' : PumpState W) (reader : list (BinlogEvent + Error)),
    allHandled evs st = Some st' ->
    handleEvents (map inl evs ++ reader) st = handleEvents reader st'.
Proof.
  induction evs as [|ev evs IH]; intros st st' reader H; simpl in *.
  - now injection H as ->.
  - destruct (handleEvent st ev) as [st1|[st1 e]]; [|discriminate].
    now apply IH.
Qed.

(** C5: when a rotate event is written, the meta position is the rotate
    target at offset 4, the pending GTID buffer is empty, and the meta is
    saved and flushed at once: [Dirty] is false right after, also when the
    pump returns at the next read. *)
Theorem rotate_saves_and_flushes
        (st : PumpState W) (ev : BinlogEvent) (name : string) (p : Z)
        (w' : W) (res : WriteResult)
        (Hrot : Event ev = RotateEvent name p)
        (Htr : tIgnore (Transform ev) = false)
        (Hwr : WriteEvent (writer st) (tEvent (Transform ev)) = (w', inl res))
        (Hwi : wIgnore res = false) :
  exists st',
    handleEvent st ev = inl st'
    /\ pos (pmeta st') = {| Name := name; Pos := 4 |}
    /\ pending st' = []
    /\ Dirty (pmeta st') = false
    /\ diskPos (pmeta st') = {| Name := name; Pos := 4 |}
    /\ diskGSet (pmeta st') = gset (pmeta st)
    /\ (forall e reader, exists result,
           handleEvents (inl ev :: inr e :: reader) st = Some (st', result)).
Proof.
  eexists. split.
  - unfold Relay.handleEvent. rewrite Htr, Hwr, Hwi.
    unfold updateMeta. rewrite Hrot. reflexivity.
  - simpl. repeat split.
    intros e reader. unfold Relay.handleEvent. rewrite Htr, Hwr, Hwi.
    unfold updateMeta. rewrite Hrot.
    destruct (isCanceled e); eexists; reflexivity.
Qed.



End PumpFacts.

(** ** [TestHandleEvent], replayed *)

Example TestHandleEvent_reader_errors :
  forall e,
    In e [Relay.ErrOther "reader error for testing";
          Relay.ErrChecksumMismatch; Relay.ErrSyncClosed;
          Relay.ErrNeedSyncAgain] ->
    pump [inr e] pumpStart
    = Some (pumpStart, {| Relay.Canceled := false; Relay.Err := Some e |}).
Proof.
  intros e He. simpl in He.
  destruct He as [<-|[<-|[<-|[<-|[]]]]]; reflexivity.
Qed.

Example TestHandleEvent_writer :
  (* the writer fails on the rotate event: its error comes back, and the
     meta is not dirty *)
  let failing := writerWith false (Some (Relay.ErrOther "writer error"))
                            None in
  let r1 := pump (untilTimeout rotateEv) (setWriter pumpStart failing) in
  (exists st, r1 = Some (st, {| Relay.Canceled := false;
                                Relay.Err := Some (Relay.ErrOther
                                                     "writer error") |})
              /\ Relay.Dirty (Relay.pmeta st) = false)
  (* the writer works: the rotate event is written and the meta follows *)
  /\ (let r2 := pump (untilTimeout rotateEv) pumpStart in
      let st2 := stateAfter r2 in
      r2 = Some (st2, timedOut)
      /\ Relay.latestEvent (Relay.writer st2) = Some rotateEv
      /\ Relay.pos (Relay.pmeta st2) = binlogPos
      /\ Relay.gset (Relay.pmeta st2) = []
      /\ Relay.Dirty (Relay.pmeta st2) = false
      (* a query event with a GTID set *)
      /\ (let r3 := pump (untilTimeout queryEv) st2 in
          let st3 := stateAfter r3 in
          r3 = Some (st3, timedOut)
          /\ Relay.latestEvent (Relay.writer st3) = Some queryEv
          /\ Relay.Name (Relay.pos (Relay.pmeta st3))
             = Relay.Name binlogPos
          /\ Relay.Pos (Relay.pos (Relay.pmeta st3)) = 221
          /\ Relay.gset (Relay.pmeta st3) = queryGSet
          (* the transformer ignores the heartbeat *)
          /\ pump (untilTimeout heartbeatEv) st3 = Some (st3, timedOut)
          (* the writer ignores the event *)
          /\ (let ignoring := writerWith true None
                                (Relay.latestEvent (Relay.writer st3)) in
              pump (untilTimeout queryEv) (setWriter st3 ignoring)
              = Some (setWriter st3 ignoring, timedOut)))).
Proof.
  vm_compute. split; [eexists; split; reflexivity|]. repeat split.
Qed.

Lemma rotate_saves_and_flushes_witness :
  exists st',
    Relay.handleEvent Relay.heartbeatTransformer Relay.mockWriteEvent
                      pumpStart rotateEv = inl st'
    /\ Relay.pos (Relay.pmeta st') = binlogPos
    /\ Relay.Dirty (Relay.pmeta st') = false.
Proof.
  destruct (rotate_saves_and_flushes
              Relay.heartbeatTransformer Relay.mockWriter Relay.mockWriteEvent
              pumpStart rotateEv "mysql-bin.666888" 4
              (writerWith false None (Some rotateEv))
              {| Relay.wIgnore := false |})
    as (st' & Hrun & Hpos & _ & Hdirty & _); try reflexivity.
  exists st'. split; [exact Hrun|]. split; [exact Hpos | exact Hdirty].
Defined.



(* ================================================================== *)
(** * Properties of the relay holder *)
(* ================================================================== *)

Section HolderFacts.

Import Holder.

Lemma Close_idempotent (inner inner' : Inner) (h : Holder.Holder) :
  Close inner' (Close inner h) = Close inner h.
Proof. destruct h as [[] c r p]; reflexivity. Qed.

Lemma Close_closed_once (inner : Inner) (h : Holder.Holder) :
  closed h = true -> closed (Close inner h) = true.
Proof. destruct h as [[] c r p]; simpl; auto. Qed.

Ltac by_stage h Hlive :=
  destruct h as [[] ? ? ?]; simpl in *;
  first [reflexivity | exfalso; apply Hlive; reflexivity].

(** C8: after [Close] on a holder that is not stopped, the stage is
    [Paused] and [closed] is set; a second [Close] changes nothing;
    [Status] reports [Stopped] and [Error] the message "relay stopped"
    although the stage is [Paused].  The result kept is the one the pump
    exits with when it was running. *)
Theorem Close_observable (inner : Inner) (h : Holder.Holder)
        (Hlive : stage h <> Stopped) :
  let h' := Close inner h in
  stage h' = Paused
  /\ closed h' = true
  /\ (forall inner', Close inner' h' = h')
  /\ StatusStage (Status h') = Stopped
  /\ Error inner h' = Some {| Msg := "relay stopped" |}
  /\ pumpLive h' = false
  /\ (pumpLive h = true -> Result h' = Some (processResult inner)).
Proof.
  intros h'. unfold h'.
  split; [|split; [|split; [|split; [|split; [|split]]]]].
  - by_stage h Hlive.
  - by_stage h Hlive.
  - intros inner'. apply Close_idempotent.
  - by_stage h Hlive.
  - by_stage h Hlive.
  - by_stage h Hlive.
  - destruct h as [[] c r p]; simpl in *;
      try (exfalso; apply Hlive; reflexivity); intros ->; reflexivity.
Qed.

End HolderFacts.

(** ** [TestRelay], replayed *)

Example TestRelay_testInit :
  snd (Holder.Init dummyRelay Holder.NewRealRelayHolder) = None
  /\ Holder.Init (InjectInitError dummyRelay (Some "init error"))
                 Holder.NewRealRelayHolder
     = (Holder.NewRealRelayHolder, Some (Holder.ErrInit "init error")).
Proof. split; reflexivity. Qed.

Example TestRelay_testStart :
  let h0 := Holder.NewRealRelayHolder in
  let h1 := Holder.Start h0 in
  let u2 := Holder.Update dummyRelay h1 in
  let u3 := Holder.Update reloadFails (fst u2) in
  Holder.Stage_ h0 = Holder.New
  /\ Holder.closed h0 = false /\ Holder.Result h0 = None
  /\ Holder.Stage_ h1 = Holder.Running
  /\ Holder.Result h1 = None /\ Holder.closed h1 = false
  /\ Holder.Status h1
     = {| Holder.StatusStage := Holder.Running;
          Holder.StatusResult := None |}
  /\ Holder.Error dummyRelay h1 = None
  /\ snd u2 = None /\ Holder.Stage_ (fst u2) = Holder.Running
  /\ snd u3 = Some (Holder.ErrReload "reload error")
  /\ Holder.Stage_ (fst u3) = Holder.Paused
  /\ Holder.closed (fst u3) = false
  /\ Holder.Operate dummyRelay (fst u3) Holder.ResumeRelay
     = (afterStart, None)
  /\ Holder.Stage_ afterStart = Holder.Running
  /\ Holder.Result afterStart = None
  /\ Holder.closed afterStart = false.
Proof. vm_compute. repeat split. Qed.

Example TestRelay_testPauseAndResume :
  let p1 := Holder.Operate dummyRelay afterStart Holder.PauseRelay in
  let u2 := Holder.Update dummyRelay (fst p1) in
  let u3 := Holder.Update reloadFails (fst u2) in
  let h := afterPauseAndResume in
  snd p1 = None /\ Holder.Stage_ (fst p1) = Holder.Paused
  /\ Holder.closed (fst p1) = false
  /\ snd (Holder.pauseRelay dummyRelay (fst p1))
     = Some (Holder.ErrInvalidStage "current stage is Paused")
  /\ Holder.StatusStage (Holder.Status (fst p1)) = Holder.Paused
  /\ snd u2 = None /\ Holder.Stage_ (fst u2) = Holder.Paused
  /\ snd u3 = Some (Holder.ErrReload "reload error")
  /\ Holder.Operate dummyRelay (fst u3) Holder.ResumeRelay = (h, None)
  /\ Holder.Stage_ h = Holder.Running
  /\ Holder.Result h = None /\ Holder.closed h = false
  /\ snd (Holder.Operate dummyRelay h Holder.ResumeRelay)
     = Some (Holder.ErrInvalidStage "current stage is Running")
  /\ Holder.Status h
     = {| Holder.StatusStage := Holder.Running;
          Holder.StatusResult := None |}
  /\ snd (Holder.Operate dummyRelay h Holder.InvalidRelayOp)
     = Some Holder.ErrUnsupportedOp.
Proof. vm_compute. repeat split. Qed.

Example TestRelay_testClose :
  let h := afterClose in
  let h' := Holder.Close dummyRelay h in
  Holder.Stage_ h = Holder.Paused
  /\ Holder.Result h = Some processError
  /\ Holder.closed h = true
  /\ Holder.Stage_ h' = Holder.Paused
  /\ Holder.Result h' = Some processError
  /\ Holder.closed h' = true
  /\ Holder.Status h'
     = {| Holder.StatusStage := Holder.Stopped;
          Holder.StatusResult := None |}
  /\ Holder.Error dummyRelay h'
     = Some {| Holder.Msg := "relay stopped" |}.
Proof. vm_compute. repeat split. Qed.

Example TestRelay_testStop :
  let s1 := Holder.Operate dummyRelay afterClose Holder.StopRelay in
  snd s1 = None
  /\ Holder.Stage_ (fst s1) = Holder.Stopped
  /\ Holder.closed (fst s1) = true
  /\ snd (Holder.Operate dummyRelay (fst s1) Holder.StopRelay)
     = Some (Holder.ErrInvalidStage "current stage is already stopped")
  /\ Holder.Close dummyRelay (fst s1) = fst s1.
Proof. vm_compute. repeat split. Qed.

Lemma Close_observable_witness :
  Holder.stage afterClose = Holder.Paused
  /\ Holder.StatusStage (Holder.Status afterClose) = Holder.Stopped
  /\ Holder.Result afterClose = Some processError.
Proof.
  destruct (Close_observable (InjectProcessResult dummyRelay processError)
                             afterPauseAndResume)
    as (Hstage & _ & _ & Hstatus & _ & _ & Hresult).
  - vm_compute. discriminate.
  - split; [exact Hstage|]. split; [exact Hstatus|].
    apply Hresult. reflexivity.
Defined.

(* ================================================================== *)
(** * Further properties of [SetActiveRelayLog] *)
(* ================================================================== *)

Section SetActiveMore.

Import Purger.

Variable parse : string -> Z.
Variable taskName : string.

Lemma takeWhile_split (p : string -> bool) (l : list string) :
  exists dropped,
    l = takeWhile p l ++ dropped
    /\ (forall u, In u (takeWhile p l) -> p u = true)
    /\ match dropped with
       | [] => True
       | d :: _ => p d = false
       end.
Proof.
  induction l as [|x l IH]; simpl.
  - exists []. repeat split. intros u [].
  - destruct (p x) eqn:Ex.
    + destruct IH as [dropped (Heq & Hall & Hd)].
      exists dropped. split; [simpl; now rewrite <- Heq|].
      split; [|exact Hd].
      intros u [<-|Hin]; [exact Ex | now apply Hall].
    + exists (x :: l). repeat split; [intros u []|exact Ex].
Qed.

Lemma takeWhile_idem (p : string -> bool) (l : list string) :
  takeWhile p (takeWhile p l) = takeWhile p l.
Proof.
  induction l as [|x l IH]; simpl; [reflexivity|].
  destruct (p x) eqn:Ex; simpl; [|reflexivity].
  now rewrite Ex, IH.
Qed.

Lemma takeWhile_all (p : string -> bool) (l : list string) :
  (forall u, In u l -> p u = true) -> takeWhile p l = l.
Proof.
  induction l as [|x l IH]; simpl; intros H; [reflexivity|].
  rewrite (H x) by now left. f_equal. apply IH. intros u Hu.
  apply H. now right.
Qed.

Lemma suffixSorted_last (l : list string) (u : string) :
  suffixSorted parse l -> In u l -> parse u <= parse (last l "").
Proof.
  induction l as [|x l IH]; intros Hs Hin; [destruct Hin|].
  destruct Hs as [Hx Hs]. destruct l as [|y l].
  - destruct Hin as [<-|[]]. simpl. lia.
  - change (last (x :: y :: l) "") with (last (y :: l) "").
    destruct Hin as [<-|Hin].
    + apply Hx. clear. revert y. induction l as [|z l IHl]; intros y.
      * now left.
      * right. apply IHl.
    + now apply IH.
Qed.

(** X1: the list kept is a prefix of the list given: nothing is added or
    reordered, every sub-directory kept has a suffix not above the
    requested one, and the first one dropped, if any, has a greater
    suffix. *)
Theorem SetActiveRelayLog_keeps_prefix
        (fa : filenameArgs) (active : RelayLogInfo) :
  exists dropped,
    uuids fa
    = uuids (SetActiveRelayLog parse taskName fa active) ++ dropped
    /\ (forall u,
          In u (uuids (SetActiveRelayLog parse taskName fa active)) ->
          parse u <= endSuffixOf parse fa)
    /\ match dropped with
       | [] => True
       | d :: _ => endSuffixOf parse fa < parse d
       end.
Proof.
  simpl. rewrite discardNewer_takeWhile. simpl.
  destruct (takeWhile_split (fun u => parse u <=? endSuffixOf parse fa)
                            (uuids fa)) as [dropped (Heq & Hall & Hd)].
  exists dropped. split; [exact Heq|]. split.
  - intros u Hu. apply Z.leb_le. now apply Hall.
  - destruct dropped as [|d dropped]; [exact I|].
    now apply Z.leb_gt.
Qed.

(** The order of relay logs. *)
Lemma string_compare_trans (a : string) :
  forall b c,
    String.compare a b = Lt -> String.compare b c = Lt ->
    String.compare a c = Lt.
Proof.
  induction a as [|x a IH]; intros [|y b] [|z c]; simpl;
    try discriminate; try reflexivity.
  unfold Ascii.compare.
  destruct (N.compare_spec (N_of_ascii x) (N_of_ascii y)) as [Exy|Lxy|Gxy];
    destruct (N.compare_spec (N_of_ascii y) (N_of_ascii z)) as [Eyz|Lyz|Gyz];
    try discriminate; intros H1 H2.
  - rewrite Exy, Eyz, N.compare_refl. now apply IH with (b := b).
  - rewrite Exy. now apply N.compare_lt_iff in Lyz as ->.
  - rewrite <- Eyz. now apply N.compare_lt_iff in Lxy as ->.
  - assert (Hlt : (N_of_ascii x < N_of_ascii z)%N) by lia.
    now apply N.compare_lt_iff in Hlt as ->.
Qed.

Lemma strLess_asym (a b : string) : strLess a b = true -> strLess b a = false.
Proof.
  unfold strLess, String.ltb. rewrite (String.compare_antisym a b).
  destruct (String.compare b a); simpl; congruence.
Qed.

Lemma strLess_below (a b c : string) :
  strLess a b = true -> strLess c b = false -> strLess a c = true.
Proof.
  unfold strLess, String.ltb. intros Hab Hcb.
  destruct (String.compare a b) eqn:Eab; try discriminate.
  destruct (String.compare c b) eqn:Ecb; try discriminate.
  - apply String.compare_eq_iff in Ecb. subst c. now rewrite Eab.
  - rewrite String.compare_antisym in Ecb.
    destruct (String.compare b c) eqn:Ebc; try discriminate.
    now rewrite (string_compare_trans a b c Eab Ebc).
Qed.

Lemma Earlier_asym (a b : RelayLogInfo) :
  Earlier a b = true -> Earlier b a = false.
Proof.
  unfold Earlier.
  destruct (Z.ltb_spec (UUIDSuffix a) (UUIDSuffix b));
    destruct (Z.ltb_spec (UUIDSuffix b) (UUIDSuffix a));
    try lia; try congruence.
  apply strLess_asym.
Qed.

Lemma Earlier_below (a b c : RelayLogInfo) :
  Earlier a b = true -> Earlier c b = false -> Earlier a c = true.
Proof.
  unfold Earlier.
  destruct (Z.ltb_spec (UUIDSuffix a) (UUIDSuffix b));
    destruct (Z.ltb_spec (UUIDSuffix b) (UUIDSuffix a));
    destruct (Z.ltb_spec (UUIDSuffix c) (UUIDSuffix b));
    destruct (Z.ltb_spec (UUIDSuffix b) (UUIDSuffix c));
    destruct (Z.ltb_spec (UUIDSuffix a) (UUIDSuffix c));
    destruct (Z.ltb_spec (UUIDSuffix c) (UUIDSuffix a));
    try lia; try congruence.
  apply strLess_below.
Qed.

Lemma Earlier_trans (a b c : RelayLogInfo) :
  Earlier a b = true -> Earlier b c = true -> Earlier a c = true.
Proof.
  intros Hab Hbc. apply Earlier_below with (b := b); [exact Hab|].
  now apply Earlier_asym.
Qed.

(** X2: the safe relay log is the earlier of the active and the requested
    relay log: it is one of the two, the requested one is not earlier than
    it, and whatever is earlier than it is earlier than both. *)
Theorem SetActiveRelayLog_safe_is_lower_bound
        (fa : filenameArgs) (active : RelayLogInfo) :
  let requested := requestedRelayLog parse taskName fa in
  let safe := safeAfter parse taskName fa active in
  (safe = active \/ safe = requested)
  /\ Earlier requested safe = false
  /\ forall r, Earlier r safe = true ->
               Earlier r active = true /\ Earlier r requested = true.
Proof.
  intros requested safe. unfold safe. rewrite safeAfter_eq.
  fold requested. destruct (Earlier active requested) eqn:E.
  - split; [now left|]. split; [now apply Earlier_asym|].
    intros r Hr. split; [exact Hr|].
    now apply Earlier_trans with (b := active).
  - split; [now right|]. split; [apply Earlier_irrefl|].
    intros r Hr. split; [|exact Hr].
    now apply Earlier_below with (b := requested).
Qed.

(** X3: with a sub-directory named in the request, or with the list in
    suffix order, a second call with the same hint changes nothing. *)
Theorem SetActiveRelayLog_idempotent
        (fa : filenameArgs) (active : RelayLogInfo)
        (Hstable : subDir fa <> "" \/ suffixSorted parse (uuids fa)) :
  SetActiveRelayLog parse taskName
                    (SetActiveRelayLog parse taskName fa active) active
  = SetActiveRelayLog parse taskName fa active.
Proof.
  set (fa' := SetActiveRelayLog parse taskName fa active).
  assert (Hu : uuids fa'
               = takeWhile (fun u => parse u <=? endSuffixOf parse fa)
                           (uuids fa)).
  { unfold fa'. simpl. now rewrite discardNewer_takeWhile. }
  assert (Ht : targetUUID fa' = targetUUID fa).
  { rewrite !targetUUID_eq. change (subDir fa') with (subDir fa).
    destruct (String.eqb_spec (subDir fa) "") as [Ee|Hne]; [|reflexivity].
    destruct Hstable as [Hne|Hs]; [contradiction|].
    rewrite Hu. f_equal. apply takeWhile_all. intros u Hin.
    apply Z.leb_le. unfold endSuffixOf. rewrite targetUUID_eq, Ee. simpl.
    now apply suffixSorted_last. }
  assert (He : endSuffixOf parse fa' = endSuffixOf parse fa).
  { unfold endSuffixOf. now rewrite Ht. }
  unfold SetActiveRelayLog at 1. unfold requestedRelayLog.
  rewrite He, Ht. change (filename fa') with (filename fa).
  change (relayBaseDir fa') with (relayBaseDir fa).
  change (subDir fa') with (subDir fa).
  rewrite discardNewer_takeWhile, Hu, takeWhile_idem. simpl.
  unfold fa', SetActiveRelayLog, requestedRelayLog.
  now rewrite discardNewer_takeWhile.
Qed.

(** X4: a request that names no sub-directory, on a list in suffix order,
    targets the last sub-directory and discards none. *)
Theorem SetActiveRelayLog_latest_keeps_all
        (fa : filenameArgs) (active : RelayLogInfo)
        (Hlatest : subDir fa = "")
        (Hsorted : suffixSorted parse (uuids fa)) :
  uuids (SetActiveRelayLog parse taskName fa active) = uuids fa
  /\ UUID (requestedRelayLog parse taskName fa) = last (uuids fa) "".
Proof.
  assert (Ht : targetUUID fa = last (uuids fa) "").
  { rewrite targetUUID_eq, Hlatest. reflexivity. }
  split; [|exact Ht].
  simpl. rewrite discardNewer_takeWhile. simpl.
  apply takeWhile_all. intros u Hin. apply Z.leb_le.
  unfold endSuffixOf. rewrite Ht. now apply suffixSorted_last.
Qed.

End SetActiveMore.

(* ================================================================== *)
(** * Further properties of [filenameStrategy.Do] *)
(* ================================================================== *)

Section StrategyMore.

Import Purger Admission.

Variable undeletable : string -> string -> bool.

Local Abbreviation Do := (Purger.Do undeletable).
Local Abbreviation DoAll := (Purger.DoAll undeletable).

Lemma removeAll_shape (work : list (string * string)) :
  forall fs,
    snd (removeAll undeletable fs work) = None
    \/ exists dir file,
         snd (removeAll undeletable fs work) = Some (ErrTrace dir file).
Proof.
  induction work as [|[dir file] work IH]; intros fs; simpl.
  - now left.
  - destruct (removeFile undeletable fs dir file) as [fs'|]; simpl.
    + apply IH.
    + right. now exists dir, file.
Qed.

Lemma Do_admitted (s : filenameStrategy) (fs : FS) (args : Args) :
  purging s = 0 ->
  Do s fs args
  = ({| purging := 0 |},
     fst (body undeletable fs args), snd (body undeletable fs args)).
Proof.
  intros H0. unfold Purger.Do, CompareAndSwap, body. rewrite H0. simpl.
  destruct args as [fa|]; [|reflexivity].
  destruct (safeRelayLog fa) as [safe|]; [|reflexivity].
  destruct (purgeRelayFilesBeforeFile undeletable fs (relayBaseDir fa)
                                      (uuids fa) safe); reflexivity.
Qed.

(** X5: a call is rejected with [ErrSelfPurging] exactly when it finds the
    flag set, and then it changes neither the flag nor the disk. *)
Theorem Do_rejected_iff_busy
        (s : filenameStrategy) (fs : FS) (args : Args) :
  (outcomeOf (Do s fs args) = Returned (Some ErrSelfPurging)
   <-> purging s <> 0)
  /\ (purging s <> 0 ->
      Do s fs args = (s, fs, Returned (Some ErrSelfPurging))).
Proof.
  split; [split|].
  - intros Hout Hz. now apply (Do_entered undeletable s fs args Hz).
  - intros Hne. now rewrite (Do_busy undeletable s fs args Hne).
  - apply Do_busy.
Qed.

Lemma DoAll_length (calls : list Args) :
  forall (s : filenameStrategy) (fs : FS),
    List.length (snd (DoAll s fs calls)) = List.length calls.
Proof.
  induction calls as [|a calls IH]; intros s fs; simpl; [reflexivity|].
  destruct (Purger.Do undeletable s fs a) as [[s1 fs1] out].
  specialize (IH s1 fs1).
  destruct (Purger.DoAll undeletable s1 fs1 calls) as [[s2 fs2] outs].
  simpl in *. now rewrite IH.
Qed.

(** X6: calls made one after the other on a fresh strategy are all
    admitted: none ends with [ErrSelfPurging], each gives an outcome, and
    the strategy is idle at the end. *)
Theorem fresh_strategy_admits_all (fs : FS) (calls : list Args) :
  ~ In (Returned (Some ErrSelfPurging))
       (snd (DoAll newFilenameStrategy fs calls))
  /\ List.length (snd (DoAll newFilenameStrategy fs calls))
     = List.length calls
  /\ Purging (fst (fst (DoAll newFilenameStrategy fs calls))) = false.
Proof.
  destruct (DoAll_never_rejected undeletable calls newFilenameStrategy fs
                                 eq_refl) as [Hflag Hnot].
  split; [exact Hnot|]. split; [apply DoAll_length|].
  unfold Purging, Get. now rewrite Hflag.
Qed.

(** X7: a call that ends with [ErrSelfPurging] or with the not-valid
    error has removed no file. *)
Theorem Do_early_errors_keep_disk
        (s : filenameStrategy) (fs : FS) (args : Args)
        (Hearly : outcomeOf (Do s fs args) = Returned (Some ErrSelfPurging)
                  \/ outcomeOf (Do s fs args) = Returned (Some ErrNotValid)) :
  snd (fst (Do s fs args)) = fs.
Proof.
  destruct (Z.eq_dec (purging s) 0) as [H0|Hne].
  - rewrite (Do_admitted s fs args H0) in *. simpl in *.
    unfold body in *. destruct args as [fa|]; [|reflexivity].
    destruct (safeRelayLog fa) as [safe|]; [|reflexivity].
    simpl in Hearly. exfalso.
    unfold purgeRelayFilesBeforeFile in Hearly.
    destruct (removeAll_shape
                (collectFiles fs (relayBaseDir fa) (uuids fa) (Filename safe))
                fs) as [Hn|[dir [file Hn]]];
      rewrite Hn in Hearly; destruct Hearly as [H|H]; discriminate.
  - now rewrite (Do_busy undeletable s fs args Hne).
Qed.

(** ** Concurrent calls *)

Variable argsOf : nat -> Args.

Local Abbreviation stepThread := (Purger.stepThread undeletable argsOf).
Local Abbreviation exec := (Purger.exec undeletable argsOf).

(** X8: under any schedule, [Purging] answers true exactly while some
    call is between its compare-and-swap and its deferred reset. *)
Theorem Purging_iff_in_purge (fs : FS) (schedule : list nat) :
  let w := exec (initWorld fs) schedule in
  Purging (strategy w) = true <-> exists i, inPurge (pcs w i) = true.
Proof.
  intros w.
  assert (Hw : singleFlight w)
    by (apply singleFlight_exec, singleFlight_init).
  unfold Purging, Get. split.
  - intros Hp. apply Z.ltb_lt in Hp. apply (sf_busy _ Hw).
    destruct (sf_flag _ Hw); lia.
  - intros [i Hi]. apply Z.ltb_lt.
    destruct (sf_flag _ Hw) as [E0|E1]; [|lia].
    rewrite (sf_idle _ Hw E0 i) in Hi. discriminate.
Qed.

(** A step of another call leaves a call's line and removals alone. *)
Lemma stepThread_other (w : World) (t i : nat) :
  i <> t ->
  pcs (stepThread w t) i = pcs w i
  /\ removedBy (stepThread w t) i = removedBy w i.
Proof.
  intros Hne. unfold Purger.stepThread, removedBy.
  destruct (pcs w t) as [| |[|[dir file] work]|out|out]; simpl.
  - unfold CompareAndSwap.
    destruct (purging (strategy w) =? 0); simpl;
      rewrite setPC_other by exact Hne; auto.
  - rewrite setPC_other by exact Hne. auto.
  - rewrite setPC_other by exact Hne. auto.
  - destruct (removeFile undeletable (disk w) dir file); simpl;
      rewrite setPC_other by exact Hne; [|auto].
    destruct (Nat.eqb_spec t i) as [E|_]; [now subst|auto].
  - rewrite setPC_other by exact Hne. auto.
  - auto.
Qed.

Lemma invalidCallAt_step (w : World) (t i : nat) :
  argsOf i = ArgsOther ->
  invalidCallAt w i -> invalidCallAt (stepThread w t) i.
Proof.
  intros Ha [Hrem Hpc]. destruct (Nat.eq_dec i t) as [<-|Hne].
  - unfold invalidCallAt, Purger.stepThread, removedBy in *.
    destruct (pcs w i) as [| |work|out|out] eqn:Epc; simpl.
    + unfold CompareAndSwap.
      destruct (purging (strategy w) =? 0); simpl;
        rewrite setPC_same; auto.
    + rewrite setPC_same, Ha. auto.
    + destruct Hpc.
    + rewrite setPC_same. auto.
    + rewrite Epc. auto.
  - destruct (stepThread_other w t i Hne) as [Hp Hr].
    unfold invalidCallAt. now rewrite Hp, Hr.
Qed.

(** X9: under any schedule, a call whose arguments are not
    [*filenameArgs] removes no file, and can only end with the not-valid
    error or with [ErrSelfPurging]. *)
Theorem invalid_args_never_remove
        (i : nat) (fs : FS) (schedule : list nat)
        (Hargs : argsOf i = ArgsOther) :
  let w := exec (initWorld fs) schedule in
  removedBy w i = []
  /\ forall out, pcs w i = Done out ->
                 out = Returned (Some ErrNotValid)
                 \/ out = Returned (Some ErrSelfPurging).
Proof.
  intros w.
  assert (Hgen : forall w0, invalidCallAt w0 i ->
                            invalidCallAt (exec w0 schedule) i).
  { induction schedule as [|t schedule IH]; intros w0 H0; simpl;
      [exact H0|]. apply IH. now apply invalidCallAt_step. }
  assert (H : invalidCallAt w i).
  { apply Hgen. split; [reflexivity | exact I]. }
  destruct H as [Hrem Hpc]. split; [exact Hrem|].
  intros out Hd. now rewrite Hd in Hpc.
Qed.

(** *** Concurrent calls are the admitted calls in a row *)

Variable fs0 : FS.

Local Abbreviation serial := (Admission.serial undeletable argsOf fs0).
Local Abbreviation seqRun := (Admission.seqRun undeletable argsOf fs0).
Local Abbreviation seqDisk := (Admission.seqDisk undeletable argsOf fs0).
Local Abbreviation seqOuts := (Admission.seqOuts undeletable argsOf fs0).
Local Abbreviation inflight := (Admission.inflight undeletable argsOf).

Ltac by_thread i k :=
  destruct (Nat.eq_dec i k) as [->|?];
  [rewrite ?setPC_same in * | rewrite ?setPC_other in * by assumption].

Lemma DoAll_snoc (calls : list Args) (a : Args) :
  forall (s : filenameStrategy) (fs : FS),
    DoAll s fs (calls ++ [a])
    = let '(s1, fs1, outs) := DoAll s fs calls in
      let '(s2, fs2, out) := Do s1 fs1 a in
      (s2, fs2, outs ++ [out]).
Proof.
  induction calls as [|c calls IH]; intros s fs; simpl.
  - destruct (Purger.Do undeletable s fs a) as [[s2 fs2] out]. reflexivity.
  - destruct (Purger.Do undeletable s fs c) as [[s1 fs1] out1].
    rewrite IH.
    destruct (Purger.DoAll undeletable s1 fs1 calls) as [[s2 fs2] outs].
    destruct (Purger.Do undeletable s2 fs2 a) as [[s3 fs3] out3].
    reflexivity.
Qed.

Lemma seq_snoc (ids : list nat) (k : nat) :
  seqDisk (ids ++ [k]) = fst (body undeletable (seqDisk ids) (argsOf k))
  /\ seqOuts (ids ++ [k])
     = seqOuts ids ++ [snd (body undeletable (seqDisk ids) (argsOf k))].
Proof.
  unfold Admission.seqDisk, Admission.seqOuts, Admission.seqRun.
  rewrite map_app. simpl map. rewrite DoAll_snoc.
  pose proof (proj1 (DoAll_never_rejected undeletable (map argsOf ids)
                       newFilenameStrategy fs0 eq_refl)) as Hflag.
  destruct (Purger.DoAll undeletable newFilenameStrategy fs0 (map argsOf ids))
    as [[s1 fs1] outs].
  simpl in Hflag. rewrite (Do_admitted s1 fs1 (argsOf k) Hflag).
  simpl. auto.
Qed.

Lemma map_setPC_notin (pcs : nat -> PC) (t : nat) (pc : PC) (l : list nat) :
  ~ In t l -> map (setPC pcs t pc) l = map pcs l.
Proof.
  intros Hnot. apply map_ext_in. intros i Hi. apply setPC_other.
  intros ->. contradiction.
Qed.

Lemma NoDup_snoc_notin (l : list nat) (t : nat) :
  NoDup (l ++ [t]) -> ~ In t l.
Proof.
  intros Hnd. apply NoDup_remove_2 in Hnd. now rewrite app_nil_r in Hnd.
Qed.

Lemma serial_init : serial (initWorld fs0) [].
Proof.
  constructor; simpl.
  - constructor.
  - intros i. split; [intros [] | discriminate].
  - intros _. split; reflexivity.
  - discriminate.
Qed.

(** A step inside the purge of call [t]. *)
Lemma serial_stay (w : World) (ids : list nat) (t : nat) (pc' : PC)
      (s' : filenameStrategy) (d' : FS)
      (r' : list (nat * (string * string))) :
  singleFlight w -> serial w ids ->
  inPurge (pcs w t) = true -> inPurge pc' = true ->
  (forall D, inflight D w t ->
             inflight D (mkWorld s' d' (setPC (pcs w) t pc') r') t) ->
  serial (mkWorld s' d' (setPC (pcs w) t pc') r') ids.
Proof.
  intros Hsf [Hnd Hids Hq Hb] Ht Hpc' Hfl.
  destruct (Hb t Ht) as (ids' & Heq & Hmap & Hin).
  constructor; simpl.
  - exact Hnd.
  - intros i. rewrite Hids. by_thread i t; [|reflexivity].
    split; intros _; now apply inPurge_admitted.
  - intros Hall. specialize (Hall t). rewrite setPC_same in Hall. congruence.
  - intros k Hk.
    assert (Hkt : k = t).
    { destruct (Nat.eq_dec k t) as [E|E]; [exact E|].
      rewrite setPC_other in Hk by exact E. now apply (sf_one _ Hsf). }
    subst k. exists ids'. split; [exact Heq|]. split; [|now apply Hfl].
    rewrite map_setPC_notin; [exact Hmap|].
    apply NoDup_snoc_notin. now rewrite <- Heq.
Qed.

Lemma serial_step (w : World) (ids : list nat) (t : nat) :
  singleFlight w -> serial w ids ->
  serial (stepThread w t) (ids ++ (if admits w t then [t] else [])).
Proof.
  intros Hsf Hser. pose proof Hser as [Hnd Hids Hq Hb].
  unfold Purger.stepThread, admits.
  destruct (pcs w t) as [| |work|out|out] eqn:Epc.
  - (* the compare-and-swap *)
    assert (Hnot : ~ In t ids)
      by (rewrite Hids, Epc; discriminate).
    unfold CompareAndSwap.
    destruct (Z.eqb_spec (purging (strategy w)) 0) as [E0|E0].
    + destruct (Hq (sf_idle _ Hsf E0)) as [Hdisk Hmap].
      constructor; simpl.
      * apply NoDup_app; [exact Hnd | repeat constructor; intros [] |].
        intros i Hi [<-|[]]. contradiction.
      * intros i. rewrite in_app_iff, Hids. simpl. by_thread i t.
        -- split; [reflexivity | intros _; right; now left].
        -- split; [intros [H|[H|[]]]; [exact H | congruence] | now left].
      * intros Hall. specialize (Hall t). rewrite setPC_same in Hall.
        discriminate.
      * intros k Hk. by_thread k t.
        -- exists ids. split; [reflexivity|]. split.
           ++ rewrite map_setPC_notin by exact Hnot. exact Hmap.
           ++ unfold Admission.inflight. simpl. rewrite setPC_same.
              exact Hdisk.
        -- rewrite (sf_idle _ Hsf E0 k) in Hk. discriminate.
    + rewrite app_nil_r. constructor; simpl.
      * exact Hnd.
      * intros i. rewrite Hids. by_thread i t; [|reflexivity].
        rewrite Epc. simpl. reflexivity.
      * intros Hall.
        assert (Hall' : forall i, inPurge (pcs w i) = false).
        { intros i. specialize (Hall i). by_thread i t;
            [now rewrite Epc | exact Hall]. }
        destruct (Hq Hall') as [Hdisk Hmap]. split; [exact Hdisk|].
        rewrite map_setPC_notin by exact Hnot. exact Hmap.
      * intros k Hk. by_thread k t; [discriminate|].
        destruct (Hb k Hk) as (ids' & Heq & Hmap & Hin).
        exists ids'. split; [exact Heq|]. split.
        -- rewrite map_setPC_notin; [exact Hmap|].
           intros Hin'. apply Hnot. rewrite Heq. apply in_or_app. now left.
        -- unfold Admission.inflight in *. simpl.
           rewrite setPC_other by assumption. exact Hin.
  - (* inspecting the arguments *)
    rewrite app_nil_r. apply serial_stay; try assumption.
    + now rewrite Epc.
    + destruct (argsOf t) as [fa|]; [destruct (safeRelayLog fa)|];
        reflexivity.
    + intros D. unfold Admission.inflight. simpl.
      rewrite setPC_same, Epc. intros <-.
      unfold body.
      destruct (argsOf t) as [fa|] eqn:Ea; [|reflexivity].
      destruct (safeRelayLog fa) as [safe|] eqn:Es; [|reflexivity].
      exists fa, safe. auto.
  - (* removing files *)
    rewrite app_nil_r. destruct work as [|[dir file] work'].
    + apply serial_stay; try assumption; try reflexivity.
      * now rewrite Epc.
      * intros D. unfold Admission.inflight. simpl.
        rewrite setPC_same, Epc. intros (fa & safe & Ea & Es & Hrun).
        unfold body. rewrite Ea, Es, <- Hrun. reflexivity.
    + destruct (removeFile undeletable (disk w) dir file) as [fs'|] eqn:Er.
      * apply serial_stay; try assumption; try reflexivity.
        -- now rewrite Epc.
        -- intros D. unfold Admission.inflight. simpl.
           rewrite setPC_same, Epc. intros (fa & safe & Ea & Es & Hrun).
           exists fa, safe. split; [exact Ea|]. split; [exact Es|].
           rewrite <- Hrun. simpl. now rewrite Er.
      * apply serial_stay; try assumption; try reflexivity.
        -- now rewrite Epc.
        -- intros D. unfold Admission.inflight. simpl.
           rewrite setPC_same, Epc. intros (fa & safe & Ea & Es & Hrun).
           unfold body. rewrite Ea, Es, <- Hrun. simpl. now rewrite Er.
  - (* the deferred reset *)
    rewrite app_nil_r.
    assert (Ht : inPurge (pcs w t) = true) by now rewrite Epc.
    destruct (Hb t Ht) as (ids' & Heq & Hmap & Hin).
    unfold Admission.inflight in Hin. rewrite Epc in Hin.
    assert (Hnot : ~ In t ids')
      by (apply NoDup_snoc_notin; now rewrite <- Heq).
    assert (Hout : rejected (Done out) = false)
      by now apply (sf_defer _ Hsf t).
    assert (Hquiet : forall i, i <> t -> inPurge (pcs w i) = false).
    { intros i Hi. destruct (inPurge (pcs w i)) eqn:Ei; [|reflexivity].
      exfalso. apply Hi. now apply (sf_one _ Hsf). }
    constructor; simpl.
    + exact Hnd.
    + intros i. rewrite Hids. by_thread i t; [|reflexivity].
      rewrite Epc. simpl. simpl in Hout. rewrite Hout. reflexivity.
    + intros _. destruct (seq_snoc ids' t) as [Hd Ho].
      rewrite Heq, Hd, Ho, <- Hin. simpl. split; [reflexivity|].
      rewrite !map_app. simpl. rewrite setPC_same.
      rewrite map_setPC_notin by exact Hnot. now rewrite Hmap.
    + intros k Hk. by_thread k t; [discriminate|].
      rewrite (Hquiet k) in Hk by assumption. discriminate.
  - (* returned already *)
    now rewrite app_nil_r.
Qed.

Lemma serial_exec (schedule : list nat) :
  forall (w : World) (ids : list nat),
    singleFlight w -> serial w ids ->
    serial (exec w schedule)
           (ids ++ admitOrder undeletable argsOf w schedule).
Proof.
  induction schedule as [|t schedule IH]; intros w ids Hsf Hser; simpl.
  - now rewrite app_nil_r.
  - rewrite app_assoc. apply IH.
    + now apply singleFlight_step.
    + now apply serial_step.
Qed.

(** X10: concurrent calls serialize.  Once no call is purging, the disk
    is the one left by the admitted calls run one after the other, in the
    order of their compare-and-swap, on a fresh strategy; each of them has
    returned what it returns in that run, and every other call is still
    to start or was rejected. *)
Theorem concurrent_calls_serialize
        (schedule : list nat)
        (Hquiet : forall i,
            inPurge (pcs (exec (initWorld fs0) schedule) i) = false) :
  let w := exec (initWorld fs0) schedule in
  let ids := admitOrder undeletable argsOf (initWorld fs0) schedule in
  let r := DoAll newFilenameStrategy fs0 (map argsOf ids) in
  NoDup ids
  /\ disk w = snd (fst r)
  /\ map (pcs w) ids = map Done (snd r)
  /\ (forall i, ~ In i ids ->
        pcs w i = AtCAS
        \/ pcs w i = Done (Returned (Some ErrSelfPurging)))
  /\ Purging (strategy w) = false.
Proof.
  intros w ids r.
  assert (Hsf : singleFlight w)
    by (apply singleFlight_exec, singleFlight_init).
  pose proof (serial_exec schedule (initWorld fs0) []
                          (singleFlight_init fs0) serial_init) as Hser.
  simpl in Hser. fold w ids in Hser.
  destruct Hser as [Hnd Hids Hq Hb].
  destruct (Hq Hquiet) as [Hdisk Hmap].
  split; [exact Hnd|]. split; [exact Hdisk|]. split; [exact Hmap|]. split.
  - intros i Hnot.
    assert (Hadm : admitted (pcs w i) = false).
    { destruct (admitted (pcs w i)) eqn:E; [|reflexivity].
      exfalso. apply Hnot. now apply Hids. }
    destruct (pcs w i) as [| |work|out|out]; simpl in Hadm;
      try discriminate; [now left|].
    right. destruct out as [[[| |dir file]|]|]; simpl in Hadm;
      try discriminate. reflexivity.
  - unfold Purging, Get.
    destruct (sf_flag _ Hsf) as [E0|E1]; [now rewrite E0|].
    destruct (sf_busy _ Hsf E1) as [k Hk].
    fold w in Hquiet. rewrite (Hquiet k) in Hk. discriminate.
Qed.

End StrategyMore.

(* ================================================================== *)
(** * [SetActiveRelayLog], then [Do] *)
(* ================================================================== *)

Section PreparedRequest.

Import Purger.

Variable parse : string -> Z.
Variable taskName : string.
Variable undeletable : string -> string -> bool.

(** X14: a request that went through [SetActiveRelayLog] is one [Do]
    accepts: on an idle strategy the call is not rejected, the arguments
    are valid and the safe relay log is there, so it ends with success or
    with the error of a removal, and the strategy is idle again. *)
Theorem prepared_request_is_purged
        (fa : filenameArgs) (active : RelayLogInfo)
        (s : filenameStrategy) (fs : FS)
        (Hidle : purging s = 0) :
  let r := Purger.Do undeletable s fs
                     (ArgsFilename
                        (SetActiveRelayLog parse taskName fa active)) in
  (outcomeOf r = Returned None
   \/ exists dir file, outcomeOf r = Returned (Some (ErrTrace dir file)))
  /\ Purging (strategyOf r) = false.
Proof.
  intros r. unfold r.
  rewrite (Do_admitted undeletable s fs _ Hidle).
  unfold Admission.body. simpl. split; [|reflexivity].
  unfold purgeRelayFilesBeforeFile.
  match goal with
  | |- context [removeAll undeletable fs ?work] =>
      destruct (removeAll_shape undeletable work fs)
        as [Hn|[dir [file Hn]]]; rewrite Hn
  end.
  - now left.
  - right. now exists dir, file.
Qed.

End PreparedRequest.

(* ================================================================== *)
(** * Properties of the helpers of the relay tests *)
(* ================================================================== *)

Section RelayTestFacts.

Import Strconv RelayTest.

Lemma isDigit_no_sign (c : ascii) :
  Utils.isDigit c = true ->
  Ascii.eqb c "-"%char = false /\ Ascii.eqb c "+"%char = false.
Proof.
  destruct c as [[] [] [] [] [] [] [] []]; vm_compute; intros H;
    try discriminate; auto.
Qed.

Lemma digitVal_range (c : ascii) :
  Utils.isDigit c = true -> 0 <= Utils.digitVal c <= 9.
Proof.
  unfold Utils.isDigit, Utils.digitVal. intros H.
  apply andb_true_iff in H. destruct H as [H1 H2].
  apply Nat.leb_le in H1. apply Nat.leb_le in H2. lia.
Qed.

Lemma pow10_S (k : nat) : pow10 (S k) = 10 * pow10 k.
Proof.
  unfold pow10. rewrite Nat2Z.inj_succ, Z.pow_succ_r by lia. reflexivity.
Qed.

Lemma pow10_pos (k : nat) : 0 < pow10 k.
Proof. unfold pow10. apply Z.pow_pos_nonneg; lia. Qed.

(** On digits that stay below [10^18] the loop of [ParseUint] neither
    overflows nor fails: it computes the decimal value. *)
Lemma parseUintLoop_digits (s : string) :
  forall acc n,
    0 <= acc ->
    (acc + 1) * pow10 (String.length s) <= pow10 18 ->
    Utils.atoiFrom acc s = Some n ->
    parseUintLoop acc s = (n, None) /\ 0 <= n < pow10 18.
Proof.
  induction s as [|c s IH]; intros acc n Hacc Hbound Hval; simpl in *.
  - injection Hval as <-. split; [reflexivity|].
    change (pow10 0) with 1 in Hbound. lia.
  - destruct (Utils.isDigit c) eqn:Ed; [|discriminate].
    pose proof (digitVal_range c Ed) as Hd.
    pose proof (pow10_pos (String.length s)) as Hp.
    rewrite pow10_S in Hbound.
    assert (Hsmall : (acc + 1) * 10 <= pow10 18) by nia.
    assert (H18 : pow10 18 = 1000000000000000000) by reflexivity.
    unfold maxUint64.
    match goal with
    | |- context [?a <=? acc] =>
        destruct (Z.leb_spec a acc) as [Hc|_];
        [exfalso; let v := eval vm_compute in a in change a with v in Hc;
         lia|]
    end.
    match goal with
    | |- context [?a <? acc * 10 + Utils.digitVal c] =>
        destruct (Z.ltb_spec a (acc * 10 + Utils.digitVal c)) as [Hc|_];
        [exfalso; let v := eval vm_compute in a in change a with v in Hc;
         lia|]
    end.
    apply IH; [lia | nia | exact Hval].
Qed.


(** X12: a [MYSQL_PORT] made of one to eighteen decimal digits, not all
    zero, is the port of the configuration. *)
Theorem getDBConfigForTest_numeric_port
        (getenv : string -> string) (n : Z)
        (Hset : getenv "MYSQL_PORT" <> "")
        (Hlen : (String.length (getenv "MYSQL_PORT") <= 18)%nat)
        (Hval : Utils.atoiFrom 0 (getenv "MYSQL_PORT") = Some n)
        (Hnz : n <> 0) :
  Port (getDBConfigForTest getenv) = n
  /\ Atoi (getenv "MYSQL_PORT") = (n, None).
Proof.
  assert (Ha : Atoi (getenv "MYSQL_PORT") = (n, None)).
  { destruct (getenv "MYSQL_PORT") as [|c rest] eqn:Es; [contradiction|].
    assert (Ed : Utils.isDigit c = true).
    { simpl in Hval. destruct (Utils.isDigit c); [reflexivity|discriminate]. }
    destruct (isDigit_no_sign c Ed) as [Hm Hp].
    destruct (parseUintLoop_digits (String c rest) 0 n) as [Hloop Hn].
    - lia.
    - pose proof (pow10_pos (String.length (String c rest))) as Hpos.
      assert (Hmono : pow10 (String.length (String c rest)) <= pow10 18).
      { unfold pow10. apply Z.pow_le_mono_r; lia. }
      lia.
    - exact Hval.
    - unfold Atoi. rewrite Hm, Hp. simpl orb. cbv iota.
      unfold ParseUint. rewrite Hloop. simpl negb.
      assert (H18 : pow10 18 = 1000000000000000000) by reflexivity.
      destruct (Z.leb_spec (2 ^ 63) n) as [Hc|_].
      { exfalso. change (2 ^ 63) with 9223372036854775808 in Hc. lia. }
      reflexivity. }
  split; [|exact Ha].
  unfold getDBConfigForTest. simpl. rewrite Ha. simpl.
  destruct (Z.eqb_spec n 0); [contradiction | reflexivity].
Qed.

(** X13: a [MYSQL_PORT] that is not set, or that starts with a byte that
    is neither a digit nor a sign, is a syntax error for [Atoi], read as
    0: the port is 3306. *)
Theorem getDBConfigForTest_bad_port
        (getenv : string -> string)
        (Hbad : match getenv "MYSQL_PORT" with
                | EmptyString => True
                | String c _ =>
                    Utils.isDigit c = false
                    /\ c <> "-"%char /\ c <> "+"%char
                end) :
  Atoi (getenv "MYSQL_PORT") = (0, Some ErrSyntax)
  /\ Port (getDBConfigForTest getenv) = 3306.
Proof.
  assert (Ha : Atoi (getenv "MYSQL_PORT") = (0, Some ErrSyntax)).
  { destruct (getenv "MYSQL_PORT") as [|c rest]; [reflexivity|].
    destruct Hbad as (Hd & Hm & Hp).
    unfold Atoi.
    destruct (Ascii.eqb_spec c "-"%char) as [E|_]; [contradiction|].
    destruct (Ascii.eqb_spec c "+"%char) as [E|_]; [contradiction|].
    simpl. now rewrite Hd. }
  split; [exact Ha|].
  unfold getDBConfigForTest. simpl. now rewrite Ha.
Qed.

End RelayTestFacts.

(** ** The further properties on concrete requests, calls and
    environments *)

Lemma requestLatest_sorted :
  Purger.suffixSorted Utils.parseSuffix (Purger.uuids requestLatest).
Proof.
  simpl. repeat split; intros v Hv; simpl in Hv.
  - destruct Hv as [<-|[]]. vm_compute. discriminate.
  - destruct Hv.
Defined.

Lemma SetActiveRelayLog_keeps_prefix_witness :
  exists dropped,
    Purger.uuids requestLatest
    = Purger.uuids (Purger.SetActiveRelayLog Utils.parseSuffix "filename"
                                             requestLatest activeInFirst)
      ++ dropped.
Proof.
  destruct (SetActiveRelayLog_keeps_prefix Utils.parseSuffix "filename"
                                           requestLatest activeInFirst)
    as [dropped [Heq _]].
  exists dropped. exact Heq.
Defined.

Lemma SetActiveRelayLog_safe_is_lower_bound_witness :
  Purger.safeAfter Utils.parseSuffix "filename" requestLatest activeInFirst
  = activeInFirst
  \/ Purger.safeAfter Utils.parseSuffix "filename" requestLatest activeInFirst
     = Purger.requestedRelayLog Utils.parseSuffix "filename" requestLatest.
Proof.
  exact (proj1 (SetActiveRelayLog_safe_is_lower_bound
                  Utils.parseSuffix "filename" requestLatest activeInFirst)).
Defined.

Lemma SetActiveRelayLog_idempotent_witness :
  Purger.SetActiveRelayLog
    Utils.parseSuffix "filename"
    (Purger.SetActiveRelayLog Utils.parseSuffix "filename"
                              requestLatest activeInFirst)
    activeInFirst
  = Purger.SetActiveRelayLog Utils.parseSuffix "filename"
                             requestLatest activeInFirst.
Proof.
  apply SetActiveRelayLog_idempotent. right. exact requestLatest_sorted.
Defined.

Lemma SetActiveRelayLog_latest_keeps_all_witness :
  Purger.uuids (Purger.SetActiveRelayLog Utils.parseSuffix "filename"
                                         requestLatest activeInFirst)
  = [uuid1; uuid2].
Proof.
  apply (proj1 (SetActiveRelayLog_latest_keeps_all
                  Utils.parseSuffix "filename" requestLatest activeInFirst
                  eq_refl requestLatest_sorted)).
Defined.

Lemma Do_rejected_iff_busy_witness :
  Purger.Do noneUndeletable busyStrategy relayDisk
            (Purger.ArgsFilename preparedS6)
  = (busyStrategy, relayDisk, Purger.Returned (Some Purger.ErrSelfPurging)).
Proof.
  apply (proj2 (Do_rejected_iff_busy noneUndeletable busyStrategy relayDisk
                                     (Purger.ArgsFilename preparedS6))).
  vm_compute. discriminate.
Defined.

Lemma Do_early_errors_keep_disk_witness :
  snd (fst (Purger.Do noneUndeletable Purger.newFilenameStrategy relayDisk
                      Purger.ArgsOther))
  = relayDisk.
Proof.
  apply Do_early_errors_keep_disk. right. reflexivity.
Defined.

Lemma Purging_iff_in_purge_witness :
  Purger.Purging
    (Purger.strategy
       (Purger.exec noneUndeletable mixedArgs (Purger.initWorld relayDisk)
                    [1; 0]%nat))
  = true.
Proof.
  apply (proj2 (Purging_iff_in_purge noneUndeletable mixedArgs relayDisk
                                     [1; 0]%nat)).
  exists 1%nat. reflexivity.
Defined.

Lemma invalid_args_never_remove_witness :
  Purger.removedBy
    (Purger.exec noneUndeletable mixedArgs (Purger.initWorld relayDisk)
                 mixedSchedule) 1%nat
  = [].
Proof.
  apply (proj1 (invalid_args_never_remove noneUndeletable mixedArgs 1%nat
                                          relayDisk mixedSchedule eq_refl)).
Defined.

Lemma concurrent_calls_serialize_witness :
  Admission.admitOrder noneUndeletable mixedArgs
                       (Purger.initWorld relayDisk) mixedSchedule
  = [1; 0]%nat
  /\ Purger.disk (Purger.exec noneUndeletable mixedArgs
                              (Purger.initWorld relayDisk) mixedSchedule)
     = snd (fst (Purger.DoAll noneUndeletable Purger.newFilenameStrategy
                              relayDisk
                              [Purger.ArgsOther;
                               Purger.ArgsFilename preparedS6])).
Proof.
  split; [reflexivity|].
  apply (concurrent_calls_serialize noneUndeletable mixedArgs relayDisk
                                    mixedSchedule).
  intros i. destruct i as [|[|[|i]]]; reflexivity.
Defined.


Lemma getDBConfigForTest_numeric_port_witness :
  RelayTest.Port (RelayTest.getDBConfigForTest (RelayTest.envWithPort "3307"))
  = 3307.
Proof.
  destruct (getDBConfigForTest_numeric_port
              (RelayTest.envWithPort "3307") 3307) as [Hport _].
  - vm_compute. discriminate.
  - vm_compute. repeat constructor.
  - reflexivity.
  - discriminate.
  - exact Hport.
Defined.

Lemma getDBConfigForTest_bad_port_witness :
  RelayTest.Port (RelayTest.getDBConfigForTest (RelayTest.envWithPort "x1"))
  = 3306.
Proof.
  destruct (getDBConfigForTest_bad_port (RelayTest.envWithPort "x1"))
    as [_ Hport].
  - vm_compute. repeat split; discriminate.
  - exact Hport.
Defined.

Lemma prepared_request_is_purged_witness :
  Purger.Purging
    (Purger.strategyOf
       (Purger.Do noneUndeletable Purger.newFilenameStrategy relayDisk
                  (Purger.ArgsFilename
                     (Purger.SetActiveRelayLog
                        Utils.parseSuffix "filename"
                        requestS6 activeInFirst))))
  = false.
Proof.
  apply (proj2 (prepared_request_is_purged
                  Utils.parseSuffix "filename" noneUndeletable
                  requestS6 activeInFirst Purger.newFilenameStrategy
                  relayDisk eq_refl)).
Defined.
